(** * STGCN inference and inverse optimisation: shallow embedding

    This development embeds two programs of the repository:

    - [attached_assets/app_1755755635410.py]: the scaler ([z_apply],
      [z_inv]), the channel-to-node reshaping ([flat8_to_stgcn_x]), the
      graph network ([TemporalConv], [GraphConv], [STGCNBlock], [STGCN]),
      the shape check [ensure_batched] and the inverse-optimisation loop of
      [optimize_params_api] / [run_optimize_from_csv]; further the
      endpoint [predict_kpi], [apply_indices], [tv1], the dispatch of
      [load_artifacts] on the layout of the checkpoint and the column
      choice of [_parse_cols_spec];
    - [CP-DevFolder/server/stgcnRunner.py]: the hyperparameter validator
      ([_validate_execution_params] and its two range checks) and the
      command line [execute_with_data] builds from its result.

    Modelling conventions.

    - A numpy array or torch tensor is a [Tensor]: its shape together with
      the function from multi-indices to elements.  Every operation first
      checks shapes the way numpy / torch do and raises on a mismatch.
    - The development has two layers.  In the first the elements of an
      array are real numbers: it settles what depends on shapes only,
      that is which exception a call raises, which shape it returns,
      how many iterations run and which element is copied where.  It
      says nothing about computed values: rounding, infinities and NaN
      are absent from it.  The second layer, [Float32], models in
      binary32 arithmetic the code whose values a property is about (the
      scaler, [GraphConv], the clamp of the loop); whether the forward
      pass and the losses raise depends on no value of an array element,
      so the second layer takes the exceptions of an iteration from the
      first.
    - The Python floats of a request (the weights, the learning rate, the
      clamp bounds) are binary64 numbers.  [optim.Adam] raises
      [ValueError] unless [0.0 <= lr], and [clamp_] raises
      [RuntimeError] for a finite bound outside the binary32 range.
    - Python exceptions are values of [exn]; a computation that may raise
      returns a [result].
    - [loss.backward(); optimizer.step()] (automatic differentiation and
      the Adam update of torch) is a parameter of the development: the
      update writes new elements into the decision array in place.
    - A [state_dict] and a Python [dict] are association lists in
      insertion order with distinct keys; a table read from a CSV file is
      the list of its columns, each with its label and whether its dtype
      is numeric.  Text is ASCII: [strip], [lower] and the digits of an
      index are those of ASCII, and [print] of such text does not raise
      (it raises [UnicodeEncodeError] on text the stream cannot encode,
      a lone surrogate for one, which is outside this model: what is
      proved of the validator is proved of the calls that return). *)

From Stdlib Require Import Reals Lra Lia List ZArith Bool Arith.
From Stdlib Require QArith Qabs String Ascii Floats.SpecFloat.
Import ListNotations.
Local Open Scope nat_scope.

(** ** Exceptions and results *)

Inductive exn : Type :=
| ValueError
| TypeError
| OverflowError
| AssertionError
| RuntimeError
| IndexError.

Inductive result (A : Type) : Type :=
| Ok (a : A)
| Raise (e : exn).

Arguments Ok {A} a.
Arguments Raise {A} e.

Definition bind {A B : Type} (c : result A) (k : A -> result B) : result B :=
  match c with
  | Ok a => k a
  | Raise e => Raise e
  end.

Notation "x <- c ;; k" := (bind c (fun x => k))
  (at level 61, c at next level, right associativity).

Definition is_ok {A : Type} (c : result A) : bool :=
  match c with Ok _ => true | Raise _ => false end.

(** ** IEEE 754 numbers

    A Python [float] is a binary64 number and the arrays of the program
    hold binary32 numbers.  [SpecFloat] of the Standard Library gives
    the arithmetic of both formats (round to nearest, ties to even); a
    NaN has no payload. *)

Module IEEE.

Import SpecFloat.

Definition float : Type := spec_float.



Definition pos_zero : float := S754_zero false.
Definition pos_inf : float := S754_infinity false.

(** [<], [<=] and [==] on two numbers of one format, in the form the
    operations of that format return them: false as soon as an operand
    is NaN. *)
Definition ltb (x y : float) : bool := SFltb x y.
Definition leb (x y : float) : bool := SFleb x y.
Definition eqb (x y : float) : bool := SFeqb x y.

(** binary64, the [float] of Python. *)
Module B64.

Definition of_Z (n : Z) : float := binary_normalize 53 1024 n 0 false.
Definition div (x y : float) : float := SFdiv 53 1024 x y.


End B64.

(** binary32, [np.float32] and [torch.float32]. *)
Module B32.

Definition add (x y : float) : float := SFadd 24 128 x y.
Definition sub (x y : float) : float := SFsub 24 128 x y.
Definition mul (x y : float) : float := SFmul 24 128 x y.
Definition div (x y : float) : float := SFdiv 24 128 x y.
Definition sqrt (x : float) : float := SFsqrt 24 128 x.

Definition of_Z (n : Z) : float := binary_normalize 24 128 n 0 false.
Definition one : float := S754_finite false 8388608 (-23).

(** The conversion of a binary64 number, rounding to nearest: what
    [np.asarray(..., dtype=np.float32)] does to a Python float.  A
    number beyond the range becomes an infinity. *)
Definition of_double (x : float) : float :=
  match x with
  | S754_finite s m e => binary_round 24 128 s m e
  | _ => x
  end.

End B32.

(** The largest finite binary32 number, [(2 - 2^-23) * 2^127], as a
    binary64 number. *)
Definition max_float32 : float := S754_finite false 9007198717870080 75.

(** The checked conversion of a scalar argument to a [float] tensor
    operation ([c10::Scalar::to<float>]): a finite Python float beyond
    the binary32 range is an error ("value cannot be converted to type
    float without overflow"); infinities and NaN pass. *)
Definition float32_convertible (x : float) : bool :=
  match x with
  | S754_finite _ _ _ => negb (ltb max_float32 (SFabs x))
  | _ => true
  end.

End IEEE.

(** The real number a finite float stands for (0 for an infinity or a
    NaN): the value the model of shapes and exceptions computes with
    where the program has the float. *)
Definition real_of (x : IEEE.float) : R :=
  match x with
  | SpecFloat.S754_finite s m e =>
      (IZR (SpecFloat.cond_Zopp s (Zpos m)) * powerRZ 2 e)%R
  | _ => 0%R
  end.

(** ** Tensors

    The arrays of the first layer: a shape and real elements.  What is
    proved of them is about shapes, exceptions, counts and copies of
    elements; the values the program computes are those of [Float32]
    below. *)

Record Tensor : Type := mkTensor {
  shape : list nat;
  elem : list nat -> R
}.

Definition ndim (x : Tensor) : nat := length (shape x).

(** [in_range sh idx]: the multi-index [idx] addresses an element of an
    array of shape [sh]. *)
Definition in_range (sh idx : list nat) : Prop := Forall2 lt idx sh.

(** Two arrays are the same when they have the same shape and the same
    element at every index of that shape. *)
Definition same_tensor (x y : Tensor) : Prop :=
  shape x = shape y /\
  forall idx, in_range (shape x) idx -> elem x idx = elem y idx.

Definition numel (sh : list nat) : nat := fold_right Nat.mul 1 sh.

Fixpoint rsum (n : nat) (f : nat -> R) : R :=
  match n with
  | 0 => 0%R
  | S k => (rsum k f + f k)%R
  end.

Fixpoint sum_all (sh : list nat) (f : list nat -> R) : R :=
  match sh with
  | [] => f []
  | d :: sh' => rsum d (fun i => sum_all sh' (fun idx => f (i :: idx)))
  end.

(** [x.mean()] over all elements. *)
Definition tmean (x : Tensor) : R :=
  (sum_all (shape x) (elem x) / INR (numel (shape x)))%R.

Definition tmap (f : R -> R) (x : Tensor) : Tensor :=
  mkTensor (shape x) (fun idx => f (elem x idx)).

Definition zeros (sh : list nat) : Tensor := mkTensor sh (fun _ => 0%R).

(** A one-dimensional array built from a Python list. *)
Definition np_asarray (l : list R) : Tensor :=
  mkTensor [length l]
    (fun idx => match idx with [j] => nth j l 0%R | _ => 0%R end).

(** *** Broadcasting

    Shapes are aligned on their last axis; two extents are compatible
    when they are equal or one of them is 1. *)

Fixpoint bshape_rev (a b : list nat) : option (list nat) :=
  match a, b with
  | [], _ => Some b
  | _, [] => Some a
  | da :: a', db :: b' =>
      match bshape_rev a' b' with
      | None => None
      | Some r =>
          if da =? db then Some (da :: r)
          else if da =? 1 then Some (db :: r)
          else if db =? 1 then Some (da :: r)
          else None
      end
  end.

Definition broadcast_shapes (a b : list nat) : option (list nat) :=
  option_map (@rev nat) (bshape_rev (rev a) (rev b)).

Fixpoint bindex_rev (sh idx : list nat) : list nat :=
  match sh, idx with
  | d :: sh', i :: idx' => (if d =? 1 then 0 else i) :: bindex_rev sh' idx'
  | _, _ => []
  end.

(** The index of the operand of shape [sh] read for the result index
    [idx]. *)
Definition bindex (sh idx : list nat) : list nat :=
  rev (bindex_rev (rev sh) (rev idx)).

Definition broadcast2 (f : R -> R -> R) (err : exn) (x y : Tensor)
  : result Tensor :=
  match broadcast_shapes (shape x) (shape y) with
  | Some sh =>
      Ok (mkTensor sh (fun idx =>
            f (elem x (bindex (shape x) idx)) (elem y (bindex (shape y) idx))))
  | None => Raise err
  end.

(** *** Reshaping, transposition, indexing *)

Fixpoint ravel (sh idx : list nat) : nat :=
  match sh, idx with
  | _ :: sh', i :: idx' => i * numel sh' + ravel sh' idx'
  | _, _ => 0
  end.

Fixpoint unravel (sh : list nat) (n : nat) : list nat :=
  match sh with
  | [] => []
  | _ :: sh' => n / numel sh' :: unravel sh' (n mod numel sh')
  end.

(** [x.reshape(sh)] for a shape without [-1]. *)
Definition reshape (x : Tensor) (sh : list nat) : result Tensor :=
  if numel sh =? numel (shape x)
  then Ok (mkTensor sh (fun idx => elem x (unravel (shape x) (ravel sh idx))))
  else Raise ValueError.

(** [x.reshape(-1, c)]. *)
Definition reshape_rows (x : Tensor) (c : nat) : result Tensor :=
  if c =? 0 then Raise ValueError
  else if numel (shape x) mod c =? 0
       then reshape x [numel (shape x) / c; c]
       else Raise ValueError.

(** [np.transpose(x, (0, 2, 1))]. *)
Definition transpose021 (x : Tensor) : result Tensor :=
  match shape x with
  | [a; b; c] =>
      Ok (mkTensor [a; c; b]
            (fun idx => match idx with
                        | [i; k; j] => elem x [i; j; k]
                        | _ => 0%R
                        end))
  | _ => Raise ValueError
  end.

(** [x[..., None]]. *)
Definition unsqueeze_last (x : Tensor) : Tensor :=
  mkTensor (shape x ++ [1]) (fun idx => elem x (removelast idx)).

(** [arr[None, ...]]. *)
Definition expand_front (x : Tensor) : Tensor :=
  mkTensor (1 :: shape x) (fun idx => elem x (tl idx)).

(** ** Scaler *)

Record ScalerStat : Type := mkStat {
  mean : list R;
  std : list R
}.

(** The scaler in the first layer: its broadcasting and the shape of
    its result.  The casts to [np.float32] and the rounding are in
    [Float32.z_apply] and [Float32.z_inv]. *)

(** [std[std == 0] = 1.0]. *)
Definition guard_std (s : R) : R :=
  if Req_dec_T s 0 then 1%R else s.

Definition z_apply (arr : Tensor) (stat : ScalerStat) : result Tensor :=
  let mean_ := np_asarray (mean stat) in
  let std_ := np_asarray (map guard_std (std stat)) in
  d <- broadcast2 Rminus ValueError arr mean_ ;;
  broadcast2 Rdiv ValueError d std_.

Definition z_inv (arr : Tensor) (stat : ScalerStat) : result Tensor :=
  let mean_ := np_asarray (mean stat) in
  let std_ := np_asarray (std stat) in
  m <- broadcast2 Rmult ValueError arr std_ ;;
  broadcast2 Rplus ValueError m mean_.

(** ** Server helpers *)

Definition ensure_batched (arr : Tensor) (last_dim : nat) : result Tensor :=
  if (ndim arr =? 2) && (nth 1 (shape arr) 0 =? last_dim) then
    Ok (expand_front arr)
  else if (ndim arr =? 3) && (nth 2 (shape arr) 0 =? last_dim) then
    Ok arr
  else Raise ValueError.

(** A Python index into an axis of extent [c]: negative indices count
    from the end. *)
Definition norm_index (c : nat) (i : Z) : option nat :=
  if ((0 <=? i) && (i <? Z.of_nat c))%Z then Some (Z.to_nat i)
  else if ((i <? 0) && (- Z.of_nat c <=? i))%Z then Some (Z.to_nat (i + Z.of_nat c))
  else None.

(** The integers [np.asarray(indices, dtype=int)] can hold (a 64-bit
    [int]); a larger one raises [OverflowError]. *)
Definition int64 (i : Z) : bool := ((- 2 ^ 63 <=? i) && (i <? 2 ^ 63))%Z.

Fixpoint norm_indices (c : nat) (l : list Z) : option (list nat) :=
  match l with
  | [] => Some []
  | i :: l' =>
      match norm_index c i, norm_indices c l' with
      | Some j, Some js => Some (j :: js)
      | _, _ => None
      end
  end.

(** [arr[..., idx]]. *)
Definition apply_indices (arr : Tensor) (indices : option (list Z))
  : result Tensor :=
  match indices with
  | None => Ok arr
  | Some l =>
      if negb (forallb int64 l) then Raise OverflowError else
      match rev (shape arr) with
      | [] => Raise IndexError
      | c :: rpre =>
          match norm_indices c l with
          | None => Raise IndexError
          | Some js =>
              Ok (mkTensor (rev rpre ++ [length js])
                    (fun idx => elem arr (removelast idx ++ [nth (last idx 0) js 0])))
          end
      end
  end.

(** ** Channel-to-node reshaping *)

(** [p[:, lo:hi, :]] on a rank-3 tensor (the only use, after the shape
    of [p] has been unpacked into three extents). *)
Definition slice_channels (p : Tensor) (lo hi : nat) : Tensor :=
  match shape p with
  | [b; c; t] =>
      mkTensor [b; Nat.min hi c - Nat.min lo c; t]
        (fun idx => match idx with
                    | [i; j; k] => elem p [i; lo + j; k]
                    | _ => 0%R
                    end)
  | _ => p
  end.

(** [torch.cat([x, y], dim=1)] on rank-3 tensors. *)
Definition cat_channels (x y : Tensor) : result Tensor :=
  match shape x, shape y with
  | [b; c1; t], [b'; c2; t'] =>
      if (b =? b') && (t =? t') then
        Ok (mkTensor [b; c1 + c2; t]
              (fun idx => match idx with
                          | [i; j; k] =>
                              if j <? c1 then elem x [i; j; k]
                              else elem y [i; j - c1; k]
                          | _ => 0%R
                          end))
      else Raise RuntimeError
  | _, _ => Raise RuntimeError
  end.

Definition shape_eqb (a b : list nat) : bool :=
  if list_eq_dec Nat.eq_dec a b then true else false.

(** [torch.stack([x, y, z], dim=-1)]. *)
Definition stack3_last (x y z : Tensor) : result Tensor :=
  if shape_eqb (shape x) (shape y) && shape_eqb (shape x) (shape z) then
    Ok (mkTensor (shape x ++ [3])
          (fun idx => elem (nth (last idx 0) [x; y; z] (zeros [])) (removelast idx)))
  else Raise RuntimeError.

Definition flat8_to_stgcn_x (p8_t : Tensor) : result Tensor :=
  match shape p8_t with
  | [B; C8; T] =>
      if negb (C8 =? 8) then Raise AssertionError
      else
        let A := slice_channels p8_t 0 3 in
        let Bn := slice_channels p8_t 3 6 in
        let Cn := slice_channels p8_t 6 8 in
        let pad := zeros [B; 1; T] in
        Cn <- cat_channels Cn pad ;;
        stack3_last A Bn Cn
  | _ => Raise ValueError
  end.

(** [tv1]: mean absolute difference of consecutive time steps.  The
    slices [x[:, :, lo:hi]] act on the third axis of an array of three
    axes or more, and raise [IndexError] on fewer.  The value is the
    real mean (0 for no element, where the program has NaN). *)
Definition slice_time (x : Tensor) (lo hi : nat) : result Tensor :=
  match shape x with
  | b :: c :: t :: rest =>
      Ok (mkTensor (b :: c :: (Nat.min hi t - Nat.min lo t) :: rest)
            (fun idx => match idx with
                        | i :: j :: k :: tl => elem x (i :: j :: (lo + k) :: tl)
                        | _ => 0%R
                        end))
  | _ => Raise IndexError
  end.

Definition tv1 (x : Tensor) : result R :=
  match shape x with
  | b :: c :: t :: _ =>
      hi <- slice_time x 1 t ;;
      lo <- slice_time x 0 (t - 1) ;;
      d <- broadcast2 Rminus RuntimeError hi lo ;;
      Ok (tmean (tmap Rabs d))
  | _ => Raise IndexError
  end.

(** ** The graph network *)

(** [nn.Conv2d] with stride 1: hyperparameters and parameters.  The
    weight has shape [[out_channels, in_channels, kh, kw]]. *)
Record Conv2d : Type := mkConv2d {
  in_channels : nat;
  out_channels : nat;
  kernel_size : nat * nat;
  padding : nat * nat;
  weight : nat -> nat -> nat -> nat -> R;
  bias : nat -> R
}.

(** The parameters of one convolution, as a checkpoint stores them. *)
Record ConvParams : Type := mkConvParams {
  cp_weight : nat -> nat -> nat -> nat -> R;
  cp_bias : nat -> R
}.

(** Element [[b, c, i, j]] of the zero-padded input. *)
Definition padded (x : Tensor) (T V ph pw : nat) (b c i j : nat) : R :=
  if (ph <=? i) && (i <? T + ph) && (pw <=? j) && (j <? V + pw)
  then elem x [b; c; i - ph; j - pw]
  else 0%R.

Definition conv2d_shape (cv : Conv2d) (sh : list nat) : result (list nat) :=
  match sh with
  | [B; C; T; V] =>
      let '(kh, kw) := kernel_size cv in
      let '(ph, pw) := padding cv in
      if negb (C =? in_channels cv) then Raise RuntimeError
      else if (kh =? 0) || (kw =? 0) then Raise RuntimeError
      else if (T + 2 * ph <? kh) || (V + 2 * pw <? kw) then Raise RuntimeError
      else Ok [B; out_channels cv; T + 2 * ph - kh + 1; V + 2 * pw - kw + 1]
  | _ => Raise RuntimeError
  end.

(** Forward pass of a convolution on a batched input [[B, C, T, V]] (the
    only inputs the program builds). *)
Definition conv2d (cv : Conv2d) (x : Tensor) : result Tensor :=
  sh <- conv2d_shape cv (shape x) ;;
  let '(kh, kw) := kernel_size cv in
  let '(ph, pw) := padding cv in
  let T := nth 2 (shape x) 0 in
  let V := nth 3 (shape x) 0 in
  Ok (mkTensor sh
        (fun idx =>
           match idx with
           | [b; o; t; v] =>
               (bias cv o +
                rsum (in_channels cv) (fun c =>
                  rsum kh (fun i =>
                    rsum kw (fun j =>
                      weight cv o c i j * padded x T V ph pw b c (t + i) (v + j)))))%R
           | _ => 0%R
           end)).

Definition relu (x : Tensor) : Tensor := tmap (fun v => Rmax v 0) x.

Definition TemporalConv (in_channels out_channels kernel_size : nat)
  (p : ConvParams) : Conv2d :=
  mkConv2d in_channels out_channels (kernel_size, 1) (kernel_size / 2, 0)
    (cp_weight p) (cp_bias p).

Definition TemporalConv_forward (m : Conv2d) (x : Tensor) : result Tensor :=
  y <- conv2d m x ;;
  Ok (relu y).

Definition eye (n : nat) : Tensor :=
  mkTensor [n; n]
    (fun idx => match idx with
                | [i; j] => if i =? j then 1%R else 0%R
                | _ => 0%R
                end).

(** [torch.sum(a, dim=1)] on a matrix. *)
Definition sum_dim1 (a : Tensor) : result Tensor :=
  match shape a with
  | [n; m] =>
      Ok (mkTensor [n]
            (fun idx => match idx with
                        | [i] => rsum m (fun j => elem a [i; j])
                        | _ => 0%R
                        end))
  | _ => Raise IndexError
  end.

(** [torch.pow(deg, -0.5)] followed by [deg_inv_sqrt[deg_inv_sqrt == inf] = 0]:
    a zero degree gives infinity, which the guard replaces by 0.  (A
    negative degree gives NaN in torch; it has no real counterpart.)
    The float32 value, [0.70710677] for a degree of 2, is that of
    [Float32.pow_neg_half]. *)
Definition pow_neg_half_guarded (d : R) : R :=
  if Req_dec_T d 0 then 0%R else (/ sqrt d)%R.

(** [torch.diag] of a vector. *)
Definition diag (v : Tensor) : result Tensor :=
  match shape v with
  | [n] =>
      Ok (mkTensor [n; n]
            (fun idx => match idx with
                        | [i; j] => if i =? j then elem v [i] else 0%R
                        | _ => 0%R
                        end))
  | _ => Raise RuntimeError
  end.

(** [a @ b] on matrices. *)
Definition matmul (a b : Tensor) : result Tensor :=
  match shape a, shape b with
  | [n; k], [k'; m] =>
      if k =? k' then
        Ok (mkTensor [n; m]
              (fun idx => match idx with
                          | [i; j] => rsum k (fun l => (elem a [i; l] * elem b [l; j])%R)
                          | _ => 0%R
                          end))
      else Raise RuntimeError
  | _, _ => Raise RuntimeError
  end.

(** [torch.einsum("bctv,vw->bctw", x, n)]: the extents of the shared
    index [v] must be equal or one of them 1. *)
Definition einsum_bctv_vw (x n : Tensor) : result Tensor :=
  match shape x, shape n with
  | [B; C; T; V], [V'; W] =>
      if (V =? V') || (V =? 1) || (V' =? 1) then
        Ok (mkTensor [B; C; T; W]
              (fun idx =>
                 match idx with
                 | [b; c; t; w] =>
                     rsum (Nat.max V V') (fun v =>
                       let vx := if V =? 1 then 0 else v in
                       let vn := if V' =? 1 then 0 else v in
                       (elem x [b; c; t; vx] * elem n [vn; w])%R)
                 | _ => 0%R
                 end))
      else Raise RuntimeError
  | _, _ => Raise RuntimeError
  end.

(** The first six lines of [GraphConv.forward]: self-loops, degrees,
    [D^-1/2] and the value of [norm_adj].  [adj] is a matrix (the program
    builds it with [make_adj]). *)
Definition normalized_adjacency (adj : Tensor) : result Tensor :=
  match shape adj with
  | [n; _] =>
      adj <- broadcast2 Rplus RuntimeError adj (eye n) ;;
      deg <- sum_dim1 adj ;;
      let deg_inv_sqrt := tmap pow_neg_half_guarded deg in
      D_inv_sqrt <- diag deg_inv_sqrt ;;
      da <- matmul D_inv_sqrt adj ;;
      matmul da D_inv_sqrt
  | _ => Raise RuntimeError
  end.

(** [GraphConv.forward]. *)
Definition GraphConv (x adj : Tensor) : result Tensor :=
  norm_adj <- normalized_adjacency adj ;;
  einsum_bctv_vw x norm_adj.

Record STGCNBlock : Type := mkSTGCNBlock {
  temp1 : Conv2d;
  temp2 : Conv2d
}.

Record STGCN : Type := mkSTGCN {
  block : STGCNBlock;
  final : Conv2d
}.

(** The parameters a checkpoint holds. *)
Record Checkpoint : Type := mkCheckpoint {
  ck_temp1 : ConvParams;
  ck_temp2 : ConvParams;
  ck_final : ConvParams;
  ck_kpi_head : ConvParams
}.

Definition new_STGCNBlock (in_channels out_channels kernel_size : nat)
  (ck : Checkpoint) : STGCNBlock :=
  mkSTGCNBlock (TemporalConv in_channels out_channels kernel_size (ck_temp1 ck))
               (TemporalConv out_channels out_channels kernel_size (ck_temp2 ck)).

Definition new_STGCN (in_channels out_channels kernel_size num_nodes : nat)
  (ck : Checkpoint) : STGCN :=
  mkSTGCN (new_STGCNBlock in_channels 64 kernel_size ck)
          (mkConv2d 64 out_channels (1, 1) (0, 0)
             (cp_weight (ck_final ck)) (cp_bias (ck_final ck))).

Definition STGCNBlock_forward (m : STGCNBlock) (x adj : Tensor) : result Tensor :=
  x <- TemporalConv_forward (temp1 m) x ;;
  x <- GraphConv x adj ;;
  TemporalConv_forward (temp2 m) x.

Definition STGCN_forward (m : STGCN) (x adj : Tensor) : result Tensor :=
  x <- STGCNBlock_forward (block m) x adj ;;
  conv2d (final m) x.

(** *** Configuration and artifacts *)

(** The environment variables the module reads; [None] when unset. *)
Record Environ : Type := mkEnviron {
  env_IN_CHANNELS : option nat;
  env_NUM_NODES : option nat;
  env_HID_CHANNELS : option nat;
  env_KERNEL_SIZE : option nat
}.

Definition getenv_int (v : option nat) (default : nat) : nat :=
  match v with Some n => n | None => default end.

Definition IN_CHANNELS (env : Environ) : nat := getenv_int (env_IN_CHANNELS env) 3.
Definition NUM_NODES (env : Environ) : nat := getenv_int (env_NUM_NODES env) 3.
Definition HID_CHANNELS (env : Environ) : nat := getenv_int (env_HID_CHANNELS env) 64.
Definition KERNEL_SIZE (env : Environ) : nat := getenv_int (env_KERNEL_SIZE env) 5.

Definition empty_env : Environ := mkEnviron None None None None.

Definition make_adj (num_nodes : nat) : Tensor :=
  mkTensor [num_nodes; num_nodes] (fun _ => 1%R).

Record Scaler : Type := mkScaler {
  scaler_x : ScalerStat;
  scaler_y : ScalerStat
}.

Record Artifacts : Type := mkArtifacts {
  STGCN_MODEL : STGCN;
  KPI_HEAD : Conv2d;
  SCALER : Scaler;
  ADJ : Tensor
}.

(** [load_artifacts] followed by [ADJ = make_adj()]; the checkpoint and
    the scaler file are given by their contents. *)
Definition load_artifacts (env : Environ) (ck : Checkpoint) (sc : Scaler)
  : Artifacts :=
  mkArtifacts
    (new_STGCN (IN_CHANNELS env) (HID_CHANNELS env) (KERNEL_SIZE env) (NUM_NODES env) ck)
    (mkConv2d (HID_CHANNELS env) 3 (1, 1) (0, 0)
       (cp_weight (ck_kpi_head ck)) (cp_bias (ck_kpi_head ck)))
    sc
    (make_adj (NUM_NODES env)).

(** ** Inverse optimisation *)

(** [x.mean(dim=-1, keepdim=True)]. *)
Definition mean_last_keepdim (x : Tensor) : result Tensor :=
  match rev (shape x) with
  | [] => Raise IndexError
  | V :: rpre =>
      Ok (mkTensor (rev rpre ++ [1])
            (fun idx =>
               (rsum V (fun v => elem x (removelast idx ++ [v])) / INR V)%R))
  end.

(** [nn.MSELoss()(a, b)]: [RuntimeError] when the shapes do not
    broadcast.  The value is the real mean; in float32 it can be an
    infinity or NaN. *)
Definition mse (a b : Tensor) : result R :=
  d <- broadcast2 Rminus RuntimeError a b ;;
  Ok (tmean (tmap (fun v => (v * v)%R) d)).

(** [x.clamp_(lo, hi)] in the first layer, which keeps the shape.  The
    float32 clamp, with its rounded bounds and NaN, is [Float32.clamp_]. *)
Definition clamp_ (lo hi : R) (x : Tensor) : Tensor :=
  tmap (fun v => Rmin (Rmax v lo) hi) x.

(** The prediction of one iteration: lines [x4 = ...], [feat = ...],
    [pred = ...]. *)
Definition predict (art : Artifacts) (opt_params : Tensor) : result Tensor :=
  x4 <- flat8_to_stgcn_x opt_params ;;
  h <- STGCN_forward (STGCN_MODEL art) x4 (ADJ art) ;;
  feat <- mean_last_keepdim h ;;
  conv2d (KPI_HEAD art) feat.

Record Losses : Type := mkLosses {
  loss_fit : R;
  loss_dev : R;
  loss_smooth : R
}.

(** The three loss terms at the decision array [opt_params]; [xz0] is the
    normalised baseline and [has_base] tells whether one was supplied. *)
Definition loss_terms (art : Artifacts) (target xz0 : Tensor) (has_base : bool)
  (opt_params : Tensor) : result Losses :=
  pred <- predict art opt_params ;;
  loss_fit <- mse pred target ;;
  loss_dev <- (if has_base then
                 base <- transpose021 xz0 ;;
                 mse opt_params base
               else Ok 0%R) ;;
  loss_smooth <- tv1 opt_params ;;
  Ok (mkLosses loss_fit loss_dev loss_smooth).

Definition total_loss (alpha beta gamma : R) (l : Losses) : R :=
  (alpha * loss_fit l + beta * loss_dev l + gamma * loss_smooth l)%R.

(** [optim.Adam] with automatic differentiation: from its own state, the
    loss as a function of the decision array and the current array it
    gives its next state and the elements it writes into the array. *)
Record Optimizer : Type := mkOptimizer {
  opt_state : Type;
  opt_init : Tensor -> IEEE.float -> opt_state;
  opt_step : opt_state -> (Tensor -> result R) -> Tensor -> opt_state * (list nat -> R)
}.

(** The hyperparameters of a run, Python floats but for [steps]. *)
Record OptConfig : Type := mkOptConfig {
  alpha : IEEE.float;
  beta : IEEE.float;
  gamma : IEEE.float;
  steps : Z;
  lr : IEEE.float;
  zmin : IEEE.float;
  zmax : IEEE.float
}.

(** [optim.Adam([opt_params], lr=lr)]: the constructor raises
    [ValueError] unless [0.0 <= lr], so for a negative learning rate and
    for NaN. *)
Definition adam_accepts (lr : IEEE.float) : bool := IEEE.leb IEEE.pos_zero lr.

(** [opt_params.clamp_(zmin, zmax)] converts its two bounds to the
    element type of the array and raises [RuntimeError] when one of them
    does not fit. *)
Definition clamp_accepts (zmin zmax : IEEE.float) : bool :=
  IEEE.float32_convertible zmin && IEEE.float32_convertible zmax.

(** What one iteration computed, and the decision array it left. *)
Record IterRecord : Type := mkIterRecord {
  it_losses : Losses;
  it_params : Tensor
}.

Definition iteration (O : Optimizer) (art : Artifacts) (cfg : OptConfig)
  (target xz0 : Tensor) (has_base : bool)
  (st : opt_state O * Tensor) : result (IterRecord * (opt_state O * Tensor)) :=
  let '(s, opt_params) := st in
  l <- loss_terms art target xz0 has_base opt_params ;;
  let loss := fun q =>
    lq <- loss_terms art target xz0 has_base q ;;
    Ok (total_loss (real_of (alpha cfg)) (real_of (beta cfg)) (real_of (gamma cfg)) lq) in
  let '(s', written) := opt_step O s loss opt_params in
  if clamp_accepts (zmin cfg) (zmax cfg) then
    let opt_params' :=
      clamp_ (real_of (zmin cfg)) (real_of (zmax cfg))
        (mkTensor (shape opt_params) written) in
    Ok (mkIterRecord l opt_params', (s', opt_params'))
  else Raise RuntimeError.

(** [for step in range(n): ...]: the records of the iterations that
    completed, and the final state or the exception that ended the loop. *)
Fixpoint run_steps (O : Optimizer) (art : Artifacts) (cfg : OptConfig)
  (target xz0 : Tensor) (has_base : bool) (n : nat)
  (st : opt_state O * Tensor)
  : list IterRecord * result (opt_state O * Tensor) :=
  match n with
  | 0 => ([], Ok st)
  | S k =>
      match iteration O art cfg target xz0 has_base st with
      | Raise e => ([], Raise e)
      | Ok (r, st') =>
          let '(tr, res) := run_steps O art cfg target xz0 has_base k st' in
          (r :: tr, res)
      end
  end.

(** The part both entry points share: from [opt_params = ...clone()]
    and the construction of the optimizer to the end of the loop. *)
Definition optimize_loop (O : Optimizer) (art : Artifacts) (cfg : OptConfig)
  (target xz0 : Tensor) (has_base : bool)
  : list IterRecord * result Tensor :=
  match transpose021 xz0 with
  | Raise e => ([], Raise e)
  | Ok opt_params =>
      if adam_accepts (lr cfg) then
        let optimizer := opt_init O opt_params (lr cfg) in
        let '(tr, res) :=
          run_steps O art cfg target xz0 has_base (Z.to_nat (steps cfg))
            (optimizer, opt_params) in
        (tr, st <- res ;; Ok (snd st))
      else ([], Raise ValueError)
  end.

(** *** Entry points *)

(** [z_apply(arr.reshape(-1, c), stat).reshape(sh)]. *)
Definition normalise (arr : Tensor) (c : nat) (stat : ScalerStat)
  (sh : list nat) : result Tensor :=
  r <- reshape_rows arr c ;;
  z <- z_apply r stat ;;
  reshape z sh.

(** [z_inv(arr.reshape(-1, c), stat).reshape(sh)]. *)
Definition denormalise (arr : Tensor) (c : nat) (stat : ScalerStat)
  (sh : list nat) : result Tensor :=
  r <- reshape_rows arr c ;;
  z <- z_inv r stat ;;
  reshape z sh.

(** [x.squeeze(-1)]. *)
Definition squeeze_last (x : Tensor) : Tensor :=
  match rev (shape x) with
  | 1 :: rpre => mkTensor (rev rpre) (fun idx => elem x (idx ++ [0]))
  | _ => x
  end.

(** The request of [/predict_kpi]; [params] is the array [np.asarray]
    builds from the lists of the request. *)
Record PredictKPIRequest : Type := mkPredictRequest {
  params : Tensor;
  param_indices : option (list Z);
  predict_return_raw : bool
}.

(** [predict_kpi]: the response, or the exception that aborted the
    call. *)
Definition predict_kpi (art : Artifacts) (req : PredictKPIRequest)
  : result Tensor :=
  arr <- ensure_batched (params req) 8 ;;
  arr <- apply_indices arr (param_indices req) ;;
  xz <- normalise arr 8 (scaler_x (SCALER art)) (shape arr) ;;
  p8 <- transpose021 xz ;;
  pred <- predict art p8 ;;
  let pred := squeeze_last pred in
  kpi_bt3 <- transpose021 pred ;;
  if predict_return_raw req
  then denormalise kpi_bt3 3 (scaler_y (SCALER art)) (shape kpi_bt3)
  else Ok kpi_bt3.

(** The request of [/optimize_params]; [target_kpi] and [orig_params]
    are the arrays [np.asarray] builds from the lists of the request, and
    [req_cfg] gathers its seven numeric fields. *)
Record OptimizeParamsRequest : Type := mkRequest {
  target_kpi : Tensor;
  orig_params : option Tensor;
  req_cfg : OptConfig;
  kpi_indices : option (list Z);
  return_raw : bool
}.

Definition is_some {A : Type} (o : option A) : bool :=
  match o with Some _ => true | None => false end.

(** Everything [optimize_params_api] does before the loop: the target in
    normalised space, the normalised baseline (zeros when none is
    supplied) and the extents [B], [T]. *)
Definition api_setup (art : Artifacts) (req : OptimizeParamsRequest)
  : result (Tensor * Tensor * nat * nat) :=
  tgt <- ensure_batched (target_kpi req) 3 ;;
  tgt <- apply_indices tgt (kpi_indices req) ;;
  yz <- normalise tgt 3 (scaler_y (SCALER art)) (shape tgt) ;;
  yzt <- transpose021 yz ;;
  let target := unsqueeze_last yzt in
  match shape tgt with
  | [B; T; _] =>
      xz0 <- match orig_params req with
             | Some op =>
                 op <- ensure_batched op 8 ;;
                 normalise op 8 (scaler_x (SCALER art)) (shape op)
             | None => Ok (zeros [B; T; 8])
             end ;;
      Ok (target, xz0, B, T)
  | _ => Raise ValueError
  end.

(** [optimize_params_api]: the records of the completed iterations and
    the response (or the exception that aborted the call). *)
Definition optimize_params_api (O : Optimizer) (art : Artifacts)
  (req : OptimizeParamsRequest) : list IterRecord * result Tensor :=
  match api_setup art req with
  | Raise e => ([], Raise e)
  | Ok (target, xz0, B, T) =>
      let '(tr, res) :=
        optimize_loop O art (req_cfg req) target xz0 (is_some (orig_params req)) in
      (tr,
       p_z <- res ;;
       p_bt8 <- transpose021 p_z ;;
       if return_raw req
       then denormalise p_bt8 8 (scaler_x (SCALER art)) [B; T; 8]
       else Ok p_bt8)
  end.





(** The configurations under which the network fits the output of
    [flat8_to_stgcn_x]: three input channels, three nodes and an odd
    kernel size (the defaults are 3, 3 and 5). *)
Definition deployed (env : Environ) : Prop :=
  IN_CHANNELS env = 3 /\ NUM_NODES env = 3 /\ Nat.odd (KERNEL_SIZE env) = true.

(** The shapes [ensure_batched] accepts. *)
Definition shape_accepted (arr : Tensor) (last_dim : nat) : Prop :=
  (ndim arr = 2 /\ nth 1 (shape arr) 0 = last_dim) \/
  (ndim arr = 3 /\ nth 2 (shape arr) 0 = last_dim).

(** The statistics fit arrays of [c] channels. *)
Definition stat_for (c : nat) (stat : ScalerStat) : Prop :=
  length (mean stat) = c /\ length (std stat) = c.



(** The pooling as the specification words it, for comparison with
    [mean_last_keepdim]: features averaged over the time axis, one
    estimate per segment, that is [x.mean(dim=2, keepdim=True)] on
    [[B, C, T, V]]. *)
Definition mean_time_keepdim (x : Tensor) : result Tensor :=
  match shape x with
  | [B; C; T; V] =>
      Ok (mkTensor [B; C; 1; V]
            (fun idx =>
               match idx with
               | [b; c; _; v] => (rsum T (fun t => elem x [b; c; t; v]) / INR T)%R
               | _ => 0%R
               end))
  | _ => Raise IndexError
  end.

(** [predict] with that pooling in place of the one of the code. *)
Definition spec_predict_time_pooled (art : Artifacts) (opt_params : Tensor)
  : result Tensor :=
  x4 <- flat8_to_stgcn_x opt_params ;;
  h <- STGCN_forward (STGCN_MODEL art) x4 (ADJ art) ;;
  feat <- mean_time_keepdim h ;;
  conv2d (KPI_HEAD art) feat.

(** *** Sample data

    A checkpoint with all parameters zero, unit scaler statistics, an
    optimizer that moves every element up by 5, and a request for three
    iterations on a target of two rows. *)

Definition zero_params : ConvParams :=
  mkConvParams (fun _ _ _ _ => 0%R) (fun _ => 0%R).

Definition sample_checkpoint : Checkpoint :=
  mkCheckpoint zero_params zero_params zero_params zero_params.

Definition sample_scaler : Scaler :=
  mkScaler (mkStat (repeat 0%R 8) (repeat 1%R 8))
           (mkStat (repeat 0%R 3) (repeat 1%R 3)).

Definition sample_artifacts : Artifacts :=
  load_artifacts empty_env sample_checkpoint sample_scaler.



Definition sample_target : Tensor := mkTensor [2; 3] (fun _ => 1%R).


(** A decision array of two time steps. *)
Definition sample_params : Tensor := zeros [1; 8; 2].

(** ** The hyperparameter validator of [stgcnRunner.py] *)

Module Validator.

Import QArith Qabs String Ascii.
Local Open Scope Z_scope.

(** A Python float: a finite value (rounding to binary64 is not
    represented, a finite float is its exact rational value), the two
    infinities and NaN. *)
Inductive pyfloat : Type :=
| Finite (q : Q)
| PosInf
| NegInf
| NaN.

(** The values a configuration mapping decoded from JSON may hold. *)
Inductive pyval : Type :=
| PyInt (z : Z)
| PyFloat (f : pyfloat)
| PyStr (s : string)
| PyBool (b : bool)
| PyNone
| PyOther.   (* lists, dicts *)

(** Magnitudes from [2^1024 - 2^970] on round beyond the largest
    binary64 value. *)
Definition dbl_overflow (q : Q) : bool :=
  Qle_bool (inject_Z (2 ^ 1024 - 2 ^ 970)) (Qabs q).

(** *** [float(str)] *)

Definition is_space (c : ascii) : bool :=
  let n := nat_of_ascii c in
  ((9 <=? n) && (n <=? 13) || (28 <=? n) && (n <=? 32))%nat.

Definition digit_of (c : ascii) : option Z :=
  let n := nat_of_ascii c in
  if ((48 <=? n) && (n <=? 57))%nat then Some (Z.of_nat (n - 48)) else None.

Definition is_underscore (c : ascii) : bool := (nat_of_ascii c =? 95)%nat.

Definition lower (c : ascii) : ascii :=
  let n := nat_of_ascii c in
  if ((65 <=? n) && (n <=? 90))%nat then ascii_of_nat (n + 32) else c.

Fixpoint lstrip (l : list ascii) : list ascii :=
  match l with
  | c :: l' => if is_space c then lstrip l' else l
  | [] => []
  end.

Definition strip (l : list ascii) : list ascii :=
  rev (lstrip (rev (lstrip l))).

(** The digits that continue a digit part ([(["_"] digit)*]) and what
    follows them. *)
Fixpoint read_more_digits (l : list ascii) : list Z * list ascii :=
  match l with
  | [] => ([], [])
  | c :: l' =>
      match digit_of c with
      | Some d => let '(ds, r) := read_more_digits l' in (d :: ds, r)
      | None =>
          if is_underscore c then
            match l' with
            | c2 :: l'' =>
                match digit_of c2 with
                | Some d => let '(ds, r) := read_more_digits l'' in (d :: ds, r)
                | None => ([], l)
                end
            | [] => ([], l)
            end
          else ([], l)
      end
  end.

(** [digitpart ::= digit (["_"] digit)*], possibly absent. *)
Definition read_digitpart (l : list ascii) : list Z * list ascii :=
  match l with
  | c :: l' =>
      match digit_of c with
      | Some d => let '(ds, r) := read_more_digits l' in (d :: ds, r)
      | None => ([], l)
      end
  | [] => ([], [])
  end.

Definition digits_value (ds : list Z) : Z :=
  fold_left (fun acc d => 10 * acc + d) ds 0.

Definition read_sign (l : list ascii) : bool * list ascii :=
  match l with
  | c :: l' =>
      if (nat_of_ascii c =? 45)%nat then (true, l')
      else if (nat_of_ascii c =? 43)%nat then (false, l')
      else (false, l)
  | [] => (false, [])
  end.

(** [exponent ::= ("e" | "E") [sign] digitpart], possibly absent; [None]
    when the text that remains is not an exponent. *)
Definition read_exponent (l : list ascii) : option Z :=
  match l with
  | [] => Some 0
  | c :: l' =>
      if (nat_of_ascii (lower c) =? 101)%nat then
        let '(neg, l'') := read_sign l' in
        match read_digitpart l'' with
        | ([], _) => None
        | (ds, []) => Some (if neg then - digits_value ds else digits_value ds)
        | (_, _ :: _) => None
        end
      else None
  end.

Definition pow10 (e : Z) : Q :=
  if 0 <=? e then inject_Z (10 ^ e) else Qinv (inject_Z (10 ^ (- e))).

(** [floatnumber ::= ([digitpart] "." digitpart | digitpart ["."]) [exponent]]. *)
Definition read_floatnumber (l : list ascii) : option Q :=
  let '(ip, r) := read_digitpart l in
  let '(fp, r') :=
    match r with
    | c :: r1 => if (nat_of_ascii c =? 46)%nat then read_digitpart r1 else ([], r)
    | [] => ([], [])
    end in
  match ip, fp with
  | [], [] => None
  | _, _ =>
      match read_exponent r' with
      | None => None
      | Some e =>
          Some (Qmult (inject_Z (digits_value (ip ++ fp)))
                      (pow10 (e - Z.of_nat (List.length fp))))
      end
  end.

Definition float_of_string (s : string) : result pyfloat :=
  let l := strip (list_ascii_of_string s) in
  let '(neg, body) := read_sign l in
  let word := string_of_list_ascii (map lower body) in
  if (word =? "inf")%string || (word =? "infinity")%string then
    Ok (if neg then NegInf else PosInf)
  else if (word =? "nan")%string then Ok NaN
  else
    match read_floatnumber body with
    | None => Raise ValueError
    | Some q =>
        if dbl_overflow q then Ok (if neg then NegInf else PosInf)
        else Ok (Finite (if neg then Qopp q else q))
    end.

(** [float(value)]. *)
Definition py_float (value : pyval) : result pyfloat :=
  match value with
  | PyFloat f => Ok f
  | PyInt z => if dbl_overflow (inject_Z z) then Raise OverflowError
               else Ok (Finite (inject_Z z))
  | PyBool b => Ok (Finite (inject_Z (if b then 1 else 0)))
  | PyStr s => float_of_string s
  | PyNone => Raise TypeError
  | PyOther => Raise TypeError
  end.

(** [int(f)] for a float [f]: truncation towards zero. *)
Definition py_int (f : pyfloat) : result Z :=
  match f with
  | Finite q => Ok (Z.quot (Qnum q) (Zpos (Qden q)))
  | PosInf => Raise OverflowError
  | NegInf => Raise OverflowError
  | NaN => Raise ValueError
  end.

(** [a <= b] on floats. *)
Definition float_le (a b : pyfloat) : bool :=
  match a, b with
  | NaN, _ => false
  | _, NaN => false
  | NegInf, _ => true
  | _, PosInf => true
  | Finite x, Finite y => Qle_bool x y
  | _, _ => false
  end.

(** [try: c except (ValueError, TypeError): h]. *)
Definition except_value_type {A : Type} (c h : result A) : result A :=
  match c with
  | Raise ValueError => h
  | Raise TypeError => h
  | _ => c
  end.

Definition _validate_int_range (value : pyval) (min_val max_val : Z) : result Z :=
  except_value_type
    (f <- py_float value ;;
     int_val <- py_int f ;;
     if (min_val <=? int_val) && (int_val <=? max_val) then Ok int_val
     else Raise ValueError)
    (Raise ValueError).

Definition _validate_float_range (value : pyval) (min_val max_val : pyfloat)
  : result pyfloat :=
  except_value_type
    (float_val <- py_float value ;;
     if float_le min_val float_val && float_le float_val max_val then Ok float_val
     else Raise ValueError)
    (Raise ValueError).

Definition dict : Type := list (string * pyval).

Fixpoint dict_set (d : dict) (k : string) (v : pyval) : dict :=
  match d with
  | [] => [(k, v)]
  | (k', v') :: d' =>
      if (k' =? k)%string then (k', v) :: d' else (k', v') :: dict_set d' k v
  end.

Fixpoint dict_get (d : dict) (k : string) : option pyval :=
  match d with
  | [] => None
  | (k', v') :: d' => if (k' =? k)%string then Some v' else dict_get d' k
  end.

Definition fl (n d : Z) : pyfloat := Finite (Qmake n (Z.to_pos d)).

(** [param_validators]: the validator of a recognised key. *)
Definition param_validators (param : string) : option (pyval -> result pyval) :=
  let int_rule lo hi := fun x => v <- _validate_int_range x lo hi ;; Ok (PyInt v) in
  let float_rule lo hi := fun x => v <- _validate_float_range x lo hi ;; Ok (PyFloat v) in
  if (param =? "steps")%string then Some (int_rule 1 10000)
  else if (param =? "alpha")%string then Some (float_rule (fl 0 1) (fl 100 1))
  else if (param =? "beta")%string then Some (float_rule (fl 0 1) (fl 100 1))
  else if (param =? "gamma")%string then Some (float_rule (fl 0 1) (fl 100 1))
  else if (param =? "lr")%string then Some (float_rule (fl 1 1000000) (fl 1 1))
  else if (param =? "zmin")%string then Some (float_rule (fl (-10) 1) (fl 10 1))
  else if (param =? "zmax")%string then Some (float_rule (fl (-10) 1) (fl 10 1))
  else None.

(** The two warnings the validator prints. *)
Inductive diagnostic : Type :=
| InvalidParameter (param : string)
| UnknownParameter (param : string).

(** The loop of [_validate_execution_params] over the items still to
    visit, from the current [safe_params] and the warnings printed so
    far.  A warning is printed by appending it: the text is ASCII, which
    every stream encodes. *)
Fixpoint validate_items (items : dict) (safe_params : dict)
  (out : list diagnostic) : result (dict * list diagnostic) :=
  match items with
  | [] => Ok (safe_params, out)
  | (param, value) :: rest =>
      match param_validators param with
      | Some validator =>
          match validator value with
          | Ok safe_value =>
              validate_items rest (dict_set safe_params param safe_value) out
          | Raise ValueError =>
              validate_items rest safe_params (out ++ [InvalidParameter param])
          | Raise TypeError =>
              validate_items rest safe_params (out ++ [InvalidParameter param])
          | Raise e => Raise e
          end
      | None => validate_items rest safe_params (out ++ [UnknownParameter param])
      end
  end.

Definition _validate_execution_params (execution_config : dict)
  : result (dict * list diagnostic) :=
  validate_items execution_config [] [].

(** What the documentation of the validator promises for a mapping:
    the call returns, and the result holds exactly the entries of
    recognised keys whose validator accepts the value. *)
Definition accepts (param : string) (value : pyval) : option pyval :=
  match param_validators param with
  | Some validator =>
      match validator value with Ok v => Some v | Raise _ => None end
  | None => None
  end.

(** The documented bounds of the six float hyperparameters. *)
Definition float_bounds (param : string) : option (pyfloat * pyfloat) :=
  if (param =? "alpha")%string || (param =? "beta")%string || (param =? "gamma")%string
  then Some (fl 0 1, fl 100 1)
  else if (param =? "lr")%string then Some (fl 1 1000000, fl 1 1)
  else if (param =? "zmin")%string || (param =? "zmax")%string
  then Some (fl (-10) 1, fl 10 1)
  else None.

End Validator.

(** ** Further models *)

(** *** Indices and further sample data *)

(** The indices Python accepts on an axis of extent [c], and the
    position a valid index denotes. *)
Definition valid_index (c : nat) (i : Z) : Prop :=
  (- Z.of_nat c <= i < Z.of_nat c)%Z.

Definition wrap_index (c : nat) (i : Z) : nat :=
  Z.to_nat (if (i <? 0)%Z then i + Z.of_nat c else i)%Z.

(** A baseline of two rows and an environment with an even kernel
    size. *)
Definition sample_baseline : Tensor := mkTensor [2; 8] (fun _ => 2%R).


Definition sample_predict_request : PredictKPIRequest :=
  mkPredictRequest sample_baseline None true.

(** *** The command line of [execute_with_data] *)

Module Runner.

Import Validator String.
Local Open Scope string_scope.

(** An item whose validator raises [OverflowError]. *)
Definition overflowing (item : string * pyval) : Prop :=
  match param_validators (fst item) with
  | Some validator => validator (snd item) = Raise OverflowError
  | None => False
  end.

(** The entry an item leaves in [safe_params], if any. *)
Definition kept (item : string * pyval) : list (string * pyval) :=
  match accepts (fst item) (snd item) with
  | Some v => [(fst item, v)]
  | None => []
  end.

(** The warning an item makes the validator print, if any. *)
Definition warned (item : string * pyval) : list diagnostic :=
  match param_validators (fst item) with
  | Some validator =>
      match validator (snd item) with
      | Ok _ => []
      | Raise _ => [InvalidParameter (fst item)]
      end
  | None => [UnknownParameter (fst item)]
  end.

(** An entry its own validator returns unchanged. *)
Definition self_accepting (k : string) (v : pyval) : Prop :=
  exists validator, param_validators k = Some validator /\ validator v = Ok v.

(** An entry within the bounds of its key: an integer in [[1, 10000]]
    for [steps], a finite float within [float_bounds] otherwise. *)
Definition within_documented_bounds (k : string) (v : pyval) : Prop :=
  (k = "steps" /\ exists i, v = PyInt i /\ (1 <= i <= 10000)%Z) \/
  (exists lo hi q,
     float_bounds k = Some (Finite lo, Finite hi) /\ v = PyFloat (Finite q) /\
     QArith_base.Qle lo q /\ QArith_base.Qle q hi).

(** The seven keys of [param_validators]. *)
Definition recognised : list string :=
  ["steps"; "alpha"; "beta"; "gamma"; "lr"; "zmin"; "zmax"].


(** A configuration with a value out of range, a text that is no
    number and a number given as text. *)
Definition sample_execution_config : dict :=
  [("steps", PyInt 50000); ("alpha", PyStr "abc"); ("lr", PyStr "0.5")].

End Runner.

(** *** Loading a checkpoint *)

Module Checkpoints.

Import String.
Local Open Scope string_scope.

(** A [state_dict]: parameter names with their tensors, in insertion
    order and with distinct names. *)
Definition StateDict : Type := list (string * Tensor).

Fixpoint sd_get (sd : StateDict) (k : string) : option Tensor :=
  match sd with
  | [] => None
  | (k', v) :: sd' => if (k' =? k) then Some v else sd_get sd' k
  end.

Fixpoint sd_set (sd : StateDict) (k : string) (v : Tensor) : StateDict :=
  match sd with
  | [] => [(k, v)]
  | (k', v') :: sd' =>
      if (k' =? k) then (k', v) :: sd' else (k', v') :: sd_set sd' k v
  end.

(** [s.replace(old, "")] for a non-empty [old]: the occurrences of [old]
    are removed from left to right; [skip] counts the characters of the
    occurrence being removed. *)
Fixpoint remove_from (old : string) (skip : nat) (s : string) : string :=
  match s with
  | EmptyString => EmptyString
  | String c s' =>
      match skip with
      | S k => remove_from old k s'
      | O =>
          if prefix old s then remove_from old (length old - 1) s'
          else String c (remove_from old 0 s')
      end
  end.

Definition str_remove (old s : string) : string := remove_from old 0 s.

(** [{rename(k): v for k, v in sd.items() if k.startswith(p)}]. *)
Definition comprehension (p : string) (rename : string -> string)
  (sd : StateDict) : StateDict :=
  fold_left
    (fun acc kv => if prefix p (fst kv) then sd_set acc (rename (fst kv)) (snd kv)
                   else acc)
    sd [].

(** What [torch.load] returns, as far as [load_artifacts] looks at it:
    the values under the keys ["stgcn"], ["kpi_head"] and
    ["state_dict"], when present. *)
Record TorchFile : Type := mkTorchFile {
  file_stgcn : option StateDict;
  file_kpi_head : option StateDict;
  file_state_dict : option StateDict
}.

(** The parameters of a module, by name. *)
Definition ModuleParams : Type := list (string * Tensor).

Definition shapes_equal (a b : Tensor) : bool := shape_eqb (shape a) (shape b).

(** [module.load_state_dict(sd, strict)]: every parameter whose name is
    in [sd] takes the value stored there; a stored value of another
    shape is an error, and so is, when [strict], a parameter missing
    from [sd] or a name of [sd] that is no parameter. *)
Fixpoint copy_params (module : ModuleParams) (sd : StateDict)
  : result (ModuleParams * list string) :=
  match module with
  | [] => Ok ([], [])
  | (name, cur) :: rest =>
      r <- copy_params rest sd ;;
      match sd_get sd name with
      | Some v =>
          if shapes_equal v cur then Ok ((name, v) :: fst r, snd r)
          else Raise RuntimeError
      | None => Ok ((name, cur) :: fst r, name :: snd r)
      end
  end.

Definition unexpected_keys (module : ModuleParams) (sd : StateDict) : list string :=
  filter (fun k => negb (existsb (String.eqb k) (map fst module))) (map fst sd).

Definition is_nil {A : Type} (l : list A) : bool :=
  match l with [] => true | _ => false end.

Definition load_state_dict (module : ModuleParams) (sd : StateDict)
  (strict : bool) : result ModuleParams :=
  r <- copy_params module sd ;;
  if strict && negb (is_nil (snd r) && is_nil (unexpected_keys module sd))
  then Raise RuntimeError
  else Ok (fst r).

(** The two modules as [load_artifacts] creates them (with the values
    their constructors drew). *)
Record Modules : Type := mkModules {
  stgcn_params : ModuleParams;
  kpi_head_params : ModuleParams
}.

(** The dispatch of [load_artifacts] on the layout of the file. *)
Definition load_checkpoint (init : Modules) (state : TorchFile) : result Modules :=
  match file_stgcn state with
  | Some sd =>
      stgcn <- load_state_dict (stgcn_params init) sd true ;;
      match file_kpi_head state with
      | Some kh =>
          kpi_head <- load_state_dict (kpi_head_params init) kh true ;;
          Ok (mkModules stgcn kpi_head)
      | None => Ok (mkModules stgcn (kpi_head_params init))
      end
  | None =>
      match file_state_dict state with
      | Some sd =>
          stgcn <- load_state_dict (stgcn_params init)
                     (comprehension "stgcn." (str_remove "module.") sd) false ;;
          if existsb (fun kv => prefix "kpi_head." (fst kv)) sd then
            let kh := comprehension "kpi_head."
                        (fun k => str_remove "kpi_head." (str_remove "module." k)) sd in
            kpi_head <- load_state_dict (kpi_head_params init) kh false ;;
            Ok (mkModules stgcn kpi_head)
          else Ok (mkModules stgcn (kpi_head_params init))
      | None => Raise RuntimeError
      end
  end.

(** Freshly constructed modules for a configuration: the shapes are
    those of the constructors, the values ([draw], by parameter name)
    are whatever the initialisation drew. *)
Definition fresh (draw : string -> list nat -> R) (name : string)
  (sh : list nat) : string * Tensor :=
  (name, mkTensor sh (draw name)).

Definition fresh_modules (env : Environ) (draw : string -> list nat -> R) : Modules :=
  let k := KERNEL_SIZE env in
  let h := HID_CHANNELS env in
  mkModules
    [fresh draw "block.temp1.conv.weight" [64; IN_CHANNELS env; k; 1];
     fresh draw "block.temp1.conv.bias" [64];
     fresh draw "block.temp2.conv.weight" [64; 64; k; 1];
     fresh draw "block.temp2.conv.bias" [64];
     fresh draw "final.weight" [h; 64; 1; 1];
     fresh draw "final.bias" [h]]
    [fresh draw "weight" [3; h; 1; 1];
     fresh draw "bias" [3]].

(** A file of the second layout holding all eight parameters. *)
Definition sample_state_dict_file : TorchFile :=
  mkTorchFile None None
    (Some [("stgcn.block.temp1.conv.weight", zeros [64; 3; 5; 1]);
           ("stgcn.block.temp1.conv.bias", zeros [64]);
           ("stgcn.block.temp2.conv.weight", zeros [64; 64; 5; 1]);
           ("stgcn.block.temp2.conv.bias", zeros [64]);
           ("stgcn.final.weight", zeros [64; 64; 1; 1]);
           ("stgcn.final.bias", zeros [64]);
           ("kpi_head.weight", zeros [3; 64; 1; 1]);
           ("kpi_head.bias", zeros [3])]).

Definition sample_fresh_modules : Modules :=
  fresh_modules empty_env (fun _ _ => 1%R).

Definition sample_loaded : Modules :=
  mkModules (stgcn_params sample_fresh_modules)
    [("weight", zeros [3; 64; 1; 1]); ("bias", zeros [3])].

(** A file of the first layout without the KPI head. *)
Definition sample_stgcn_sd : StateDict :=
  [("block.temp1.conv.weight", zeros [64; 3; 5; 1]);
   ("block.temp1.conv.bias", zeros [64]);
   ("block.temp2.conv.weight", zeros [64; 64; 5; 1]);
   ("block.temp2.conv.bias", zeros [64]);
   ("final.weight", zeros [64; 64; 1; 1]);
   ("final.bias", zeros [64])].

Definition sample_stgcn_file : TorchFile :=
  mkTorchFile (Some sample_stgcn_sd) None None.

Definition sample_loaded_strict : Modules :=
  mkModules sample_stgcn_sd (kpi_head_params sample_fresh_modules).

(** A file of the first layout that stores no parameter. *)
Definition empty_stgcn_file : TorchFile := mkTorchFile (Some []) None None.

End Checkpoints.

(** *** Choosing the columns of a CSV file *)

Module Csv.

Import String Ascii.
Local Open Scope string_scope.

(** A column of the table: its label and whether its dtype is numeric. *)
Record Column : Type := mkColumn {
  col_name : string;
  is_numeric_dtype : bool
}.

Definition DataFrame : Type := list Column.

Definition columns (df : DataFrame) : list string := map col_name df.

(** [s.strip()] and [s.lower()], for ASCII text. *)
Definition str_strip (s : string) : string :=
  string_of_list_ascii (Validator.strip (list_ascii_of_string s)).

Definition str_lower (s : string) : string :=
  string_of_list_ascii (map Validator.lower (list_ascii_of_string s)).

(** [s.split(",")]. *)
Fixpoint split_comma (s : string) : list string :=
  match s with
  | EmptyString => [EmptyString]
  | String c s' =>
      if (c =? ",")%char then EmptyString :: split_comma s'
      else match split_comma s' with
           | w :: ws => String c w :: ws
           | [] => [String c EmptyString]
           end
  end.

Fixpoint all_digits (l : list ascii) : option (list Z) :=
  match l with
  | [] => Some []
  | c :: l' =>
      match Validator.digit_of c, all_digits l' with
      | Some d, Some ds => Some (d :: ds)
      | _, _ => None
      end
  end.

(** [int(it)] when [re.fullmatch(r"-?\d+", it)], for ASCII digits. *)
Definition index_literal (it : string) : option Z :=
  let l := list_ascii_of_string it in
  let '(neg, body) :=
    match l with
    | c :: l' => if (nat_of_ascii c =? 45)%nat then (true, l') else (false, l)
    | [] => (false, [])
    end in
  match body with
  | [] => None
  | _ =>
      match all_digits body with
      | Some ds =>
          Some (if neg then (- Validator.digits_value ds)%Z else Validator.digits_value ds)
      | None => None
      end
  end.

(** [df.columns[idx]]: a negative index counts from the end. *)
Definition column_at (cols : list string) (idx : Z) : result string :=
  let i := (if idx <? 0 then idx + Z.of_nat (List.length cols) else idx)%Z in
  if (i <? 0)%Z then Raise IndexError
  else match nth_error cols (Z.to_nat i) with
       | Some c => Ok c
       | None => Raise IndexError
       end.

(** The column of that label, or else the first one equal to it up to
    case. *)
Definition find_column (cols : list string) (it : string) : result string :=
  match filter (fun c => c =? it) cols with
  | c :: _ => Ok c
  | [] =>
      match filter (fun c => str_lower c =? str_lower it) cols with
      | c :: _ => Ok c
      | [] => Raise ValueError
      end
  end.

Fixpoint select_items (cols : list string) (items : list string)
  : result (list string) :=
  match items with
  | [] => Ok []
  | it :: rest =>
      c <- match index_literal it with
           | Some idx => column_at cols idx
           | None => find_column cols it
           end ;;
      cs <- select_items cols rest ;;
      Ok (c :: cs)
  end.

(** [l.index(p)] when [p in l]. *)
Fixpoint index_of (p : string) (l : list string) : option nat :=
  match l with
  | [] => None
  | c :: l' => if (c =? p) then Some 0 else option_map S (index_of p l')
  end.

(** The columns found for a list of preferred names. *)
Fixpoint hits (pri : list string) (num_cols names_lower : list string)
  : list string :=
  match pri with
  | [] => []
  | p :: pri' =>
      match index_of p names_lower with
      | Some i =>
          match nth_error num_cols i with
          | Some c => c :: hits pri' num_cols names_lower
          | None => hits pri' num_cols names_lower
          end
      | None => hits pri' num_cols names_lower
      end
  end.

Definition numeric_columns (df : DataFrame) : list string :=
  map col_name (filter is_numeric_dtype df).

Definition auto_select (df : DataFrame) (expected : nat) : result (list string) :=
  let num_cols := numeric_columns df in
  if (List.length num_cols <? expected)%nat then Raise ValueError
  else
    let names_lower := map str_lower num_cols in
    let hit1 := hits ["kpi_x"; "kpi_y"; "kpi_z"] num_cols names_lower in
    if (List.length hit1 =? expected)%nat then Ok hit1
    else
      let hit2 := hits ["x"; "y"; "z"] num_cols names_lower in
      if (List.length hit2 =? expected)%nat then Ok hit2
      else Ok (firstn expected num_cols).

Definition _parse_cols_spec (spec : option string) (df : DataFrame)
  (expected : nat) : result (list string) :=
  match spec with
  | Some (String _ _ as s) =>
      let items :=
        filter (fun it => negb (it =? "")) (map str_strip (split_comma s)) in
      cols <- select_items (columns df) items ;;
      if (List.length cols =? expected)%nat then Ok cols else Raise ValueError
  | _ => auto_select df expected
  end.

(** The first numeric column whose lowercased label is [p]. *)
Definition first_named (p : string) (df : DataFrame) : option string :=
  find (fun c => str_lower c =? p) (numeric_columns df).

Definition sample_frame : DataFrame :=
  [mkColumn "time" false; mkColumn "Z" true; mkColumn "KPI_Y" true;
   mkColumn "kpi_z" true; mkColumn "Kpi_X" true].

Definition wide_frame : DataFrame :=
  map (fun n => mkColumn n true)
    ["p1"; "p2"; "p3"; "p4"; "p5"; "p6"; "p7"; "p8"; "x"; "y"; "z"].

End Csv.

(** ** The float32 arithmetic of the program

    The model above computes with real numbers and settles shapes,
    exceptions and counts.  The values the program computes are binary32
    numbers; this part models, in that arithmetic, the code whose values
    a property is about: the scaler, [GraphConv] (whose sums torch may
    add in any order: the model adds from left to right, which is
    immaterial for one node) and the loop with its clamp. *)

Module Float32.

Import SpecFloat IEEE.

(** An array of binary32 numbers. *)
Record FTensor : Type := mkFTensor {
  fshape : list nat;
  felem : list nat -> float
}.

Definition fmap (f : float -> float) (x : FTensor) : FTensor :=
  mkFTensor (fshape x) (fun idx => f (felem x idx)).

Definition full (sh : list nat) (v : float) : FTensor :=
  mkFTensor sh (fun _ => v).

(** [np.asarray(l, dtype=np.float32)] of a list of Python floats. *)
Definition np_asarray (l : list float) : FTensor :=
  mkFTensor [length l]
    (fun idx => match idx with
                | [j] => B32.of_double (nth j l pos_zero)
                | _ => pos_zero
                end).

Definition broadcast2 (f : float -> float -> float) (err : exn) (x y : FTensor)
  : result FTensor :=
  match broadcast_shapes (fshape x) (fshape y) with
  | Some sh =>
      Ok (mkFTensor sh (fun idx =>
            f (felem x (bindex (fshape x) idx)) (felem y (bindex (fshape y) idx))))
  | None => Raise err
  end.

(** *** Scaler *)

(** [stat["mean"]] and [stat["std"]] as read from the JSON file: lists
    of Python floats. *)
Record ScalerStat : Type := mkStat {
  mean : list float;
  std : list float
}.

(** [std[std == 0] = 1.0], on the float32 array. *)
Definition guard_std (s : float) : float :=
  if eqb s pos_zero then B32.one else s.

(** [arr] is a float32 array at every call of the program, and
    [arr.astype(np.float32)] leaves such an array as it is. *)
Definition z_apply (arr : FTensor) (stat : ScalerStat) : result FTensor :=
  let mean_ := np_asarray (mean stat) in
  let std_ := fmap guard_std (np_asarray (std stat)) in
  d <- broadcast2 B32.sub ValueError arr mean_ ;;
  broadcast2 B32.div ValueError d std_.

Definition z_inv (arr : FTensor) (stat : ScalerStat) : result FTensor :=
  let mean_ := np_asarray (mean stat) in
  let std_ := np_asarray (std stat) in
  m <- broadcast2 B32.mul ValueError arr std_ ;;
  broadcast2 B32.add ValueError m mean_.

(** The rational number a finite float is. *)
Definition value (x : float) : option QArith_base.Q :=
  match x with
  | S754_zero _ => Some (QArith_base.Qmake 0 1)
  | S754_finite s m e =>
      let n := cond_Zopp s (Zpos m) in
      Some (match e with
            | Zneg p => QArith_base.Qmake n (2 ^ p)
            | _ => QArith_base.Qmake (n * 2 ^ e) 1
            end)
  | _ => None
  end.

(** [exact op r x y]: the floats are finite and [r] is the result of the
    operation [op] on [x] and [y] without rounding. *)
Definition exact (op : QArith_base.Q -> QArith_base.Q -> QArith_base.Q)
  (r x y : float) : Prop :=
  match value r, value x, value y with
  | Some qr, Some qx, Some qy => QArith_base.Qeq qr (op qx qy)
  | _, _, _ => False
  end.



(** *** [GraphConv] *)

(** A sum of [n] terms, added from left to right; the sum of no term
    is 0. *)
Definition fsum (n : nat) (f : nat -> float) : float :=
  match n with
  | 0 => pos_zero
  | S k => fold_left B32.add (map f (seq 1 k)) (f 0)
  end.

(** [torch.eye(n)]. *)
Definition eye (n : nat) : FTensor :=
  mkFTensor [n; n]
    (fun idx => match idx with
                | [i; j] => if i =? j then B32.one else pos_zero
                | _ => pos_zero
                end).

(** [torch.sum(a, dim=1)] on a matrix. *)
Definition sum_dim1 (a : FTensor) : result FTensor :=
  match fshape a with
  | [n; m] =>
      Ok (mkFTensor [n]
            (fun idx => match idx with
                        | [i] => fsum m (fun j => felem a [i; j])
                        | _ => pos_zero
                        end))
  | _ => Raise IndexError
  end.

(** [torch.pow(deg, -0.5)]: for this exponent the kernel computes the
    reciprocal of the square root. *)
Definition pow_neg_half (d : float) : float := B32.div B32.one (B32.sqrt d).

(** [deg_inv_sqrt[deg_inv_sqrt == float("inf")] = 0.0]. *)
Definition inf_to_zero (v : float) : float :=
  if eqb v pos_inf then pos_zero else v.

(** [torch.diag] of a vector. *)
Definition diag (v : FTensor) : result FTensor :=
  match fshape v with
  | [n] =>
      Ok (mkFTensor [n; n]
            (fun idx => match idx with
                        | [i; j] => if i =? j then felem v [i] else pos_zero
                        | _ => pos_zero
                        end))
  | _ => Raise RuntimeError
  end.

(** [a @ b] on matrices. *)
Definition matmul (a b : FTensor) : result FTensor :=
  match fshape a, fshape b with
  | [n; k], [k'; m] =>
      if k =? k' then
        Ok (mkFTensor [n; m]
              (fun idx => match idx with
                          | [i; j] =>
                              fsum k (fun l => B32.mul (felem a [i; l]) (felem b [l; j]))
                          | _ => pos_zero
                          end))
      else Raise RuntimeError
  | _, _ => Raise RuntimeError
  end.

(** [torch.einsum("bctv,vw->bctw", x, n)]. *)
Definition einsum_bctv_vw (x n : FTensor) : result FTensor :=
  match fshape x, fshape n with
  | [B; C; T; V], [V'; W] =>
      if (V =? V') || (V =? 1) || (V' =? 1) then
        Ok (mkFTensor [B; C; T; W]
              (fun idx =>
                 match idx with
                 | [b; c; t; w] =>
                     fsum (Nat.max V V') (fun v =>
                       let vx := if V =? 1 then 0 else v in
                       let vn := if V' =? 1 then 0 else v in
                       B32.mul (felem x [b; c; t; vx]) (felem n [vn; w]))
                 | _ => pos_zero
                 end))
      else Raise RuntimeError
  | _, _ => Raise RuntimeError
  end.

(** The first six lines of [GraphConv.forward]. *)
Definition normalized_adjacency (adj : FTensor) : result FTensor :=
  match fshape adj with
  | [n; _] =>
      adj <- broadcast2 B32.add RuntimeError adj (eye n) ;;
      deg <- sum_dim1 adj ;;
      let deg_inv_sqrt := fmap inf_to_zero (fmap pow_neg_half deg) in
      D_inv_sqrt <- diag deg_inv_sqrt ;;
      da <- matmul D_inv_sqrt adj ;;
      matmul da D_inv_sqrt
  | _ => Raise RuntimeError
  end.

(** [GraphConv.forward]. *)
Definition GraphConv (x adj : FTensor) : result FTensor :=
  norm_adj <- normalized_adjacency adj ;;
  einsum_bctv_vw x norm_adj.

(** The factor [GraphConv] applies on one node: [1 - 2^-24], the
    float32 number next below 1. *)
Definition single_node_factor : float := S754_finite false 16777215 (-24).

(** *** The loop *)

(** [std::max(a, b)] and [std::min(a, b)]: the first argument unless
    the comparison holds, so a NaN first argument is returned. *)
Definition fmax (a b : float) : float := if ltb a b then b else a.
Definition fmin (a b : float) : float := if ltb b a then b else a.

(** The bounds [clamp_] applies: its arguments converted to float32. *)
Definition lower_bound (zmin : float) : float := B32.of_double zmin.
Definition upper_bound (zmax : float) : float := B32.of_double zmax.

(** [x.clamp_(zmin, zmax)] on a float32 tensor, with Python floats for
    bounds: every element [a] becomes [min(max(a, lo), hi)]. *)
Definition clamp_ (zmin zmax : float) (x : FTensor) : result FTensor :=
  if clamp_accepts zmin zmax then
    Ok (fmap (fun a => fmin (fmax a (lower_bound zmin)) (upper_bound zmax)) x)
  else Raise RuntimeError.

(** [optim.Adam] with automatic differentiation.  [upd_init] is the
    state of a new optimizer; [upd_step] is
    [loss.backward(); optimizer.step()]: from the state of the optimizer
    and the decision array, the next state and the float32 numbers
    written into the array.  They result from the forward pass, the
    losses, their gradient and the update of Adam, whose float32 values
    depend on the order in which torch adds; any values are allowed, NaN
    and the infinities included. *)
Record Update : Type := mkUpdate {
  upd_state : Type;
  upd_init : FTensor -> float -> upd_state;
  upd_step : upd_state -> FTensor -> upd_state * (list nat -> float)
}.

(** The array of the model of shapes that has the shape of [x]. *)
Definition shapes (x : FTensor) : Tensor := zeros (fshape x).

(** [np.transpose(x, (0, 2, 1))]. *)
Definition transpose021 (x : FTensor) : result FTensor :=
  match fshape x with
  | [a; b; c] =>
      Ok (mkFTensor [a; c; b]
            (fun idx => match idx with
                        | [i; k; j] => felem x [i; j; k]
                        | _ => pos_zero
                        end))
  | _ => Raise ValueError
  end.

(** One iteration of the loop.  Whether the forward pass and the losses
    raise depends on the shapes alone: the model of shapes decides it,
    on arrays of the shapes of the target, the baseline and the decision
    array. *)
Definition iteration (U : Update) (art : Artifacts) (target xz0 : FTensor)
  (has_base : bool) (zmin zmax : float) (st : upd_state U * FTensor)
  : result (upd_state U * FTensor) :=
  let '(s, opt_params) := st in
  _ <- loss_terms art (shapes target) (shapes xz0) has_base (shapes opt_params) ;;
  let '(s', written) := upd_step U s opt_params in
  p <- clamp_ zmin zmax (mkFTensor (fshape opt_params) written) ;;
  Ok (s', p).

(** [for step in range(n): ...]: the decision array after each
    iteration that completed, and the final state or the exception that
    ended the loop. *)
Fixpoint run_steps (U : Update) (art : Artifacts) (target xz0 : FTensor)
  (has_base : bool) (zmin zmax : float) (n : nat) (st : upd_state U * FTensor)
  : list FTensor * result (upd_state U * FTensor) :=
  match n with
  | 0 => ([], Ok st)
  | S k =>
      match iteration U art target xz0 has_base zmin zmax st with
      | Raise e => ([], Raise e)
      | Ok st' =>
          let '(tr, res) := run_steps U art target xz0 has_base zmin zmax k st' in
          (snd st' :: tr, res)
      end
  end.

(** The part both entry points share: from [opt_params = ...clone()]
    and the construction of the optimizer, which raises [ValueError]
    unless [0.0 <= lr], to the end of the loop. *)
Definition optimize_loop (U : Update) (art : Artifacts) (cfg : OptConfig)
  (target xz0 : FTensor) (has_base : bool)
  : list FTensor * result FTensor :=
  match transpose021 xz0 with
  | Raise e => ([], Raise e)
  | Ok opt_params =>
      if adam_accepts (lr cfg) then
        let optimizer := upd_init U opt_params (lr cfg) in
        let '(tr, res) :=
          run_steps U art target xz0 has_base (zmin cfg) (zmax cfg)
            (Z.to_nat (steps cfg)) (optimizer, opt_params) in
        (tr, st <- res ;; Ok (snd st))
      else ([], Raise ValueError)
  end.


(** *** Sample data *)




(** The adjacency matrix [[[1]]] and features that are all 1. *)
Definition single_adj : FTensor := full [1; 1] B32.one.
Definition unit_features : FTensor := full [1; 2; 2; 1] B32.one.





End Float32.

(** * Properties *)

Lemma bshape_rev_nil_r (a : list nat) : bshape_rev a [] = Some a.
Proof. destruct a; reflexivity. Qed.

Lemma broadcast_shapes_vec (pre : list nat) (C : nat) :
  broadcast_shapes (pre ++ [C]) [C] = Some (pre ++ [C]).
Proof.
  unfold broadcast_shapes. rewrite rev_app_distr. simpl.
  rewrite bshape_rev_nil_r, Nat.eqb_refl. simpl.
  now rewrite rev_involutive.
Qed.

Lemma bindex_rev_self (sh idx : list nat) :
  Forall2 lt idx sh -> bindex_rev sh idx = idx.
Proof.
  induction 1 as [|i d idx sh Hi _ IH]; simpl; [reflexivity|].
  rewrite IH. destruct (Nat.eqb_spec d 1); [|reflexivity].
  f_equal. lia.
Qed.

Lemma Forall2_rev {A B} (P : A -> B -> Prop) l1 l2 :
  Forall2 P l1 l2 -> Forall2 P (rev l1) (rev l2).
Proof.
  induction 1; simpl; [constructor|].
  apply Forall2_app; [assumption|]. constructor; [assumption|constructor].
Qed.

Lemma bindex_self (sh idx : list nat) :
  in_range sh idx -> bindex sh idx = idx.
Proof.
  intros H. unfold bindex.
  rewrite bindex_rev_self by (apply Forall2_rev; exact H).
  apply rev_involutive.
Qed.

Lemma in_range_snoc (pre : list nat) (C : nat) (idx : list nat) :
  in_range (pre ++ [C]) idx ->
  exists ipre j, idx = ipre ++ [j] /\ in_range pre ipre /\ j < C.
Proof.
  intros H. apply Forall2_app_inv_r in H.
  destruct H as (ipre & l & Hpre & Hl & ->).
  inversion Hl as [|j c l' l'' Hj Hnil]; subst.
  inversion Hnil; subst.
  exists ipre, j. auto.
Qed.

Lemma bindex_vec (C : nat) (ipre : list nat) (j : nat) :
  j < C -> bindex [C] (ipre ++ [j]) = [j].
Proof.
  intros Hj. unfold bindex. rewrite rev_app_distr. simpl.
  destruct (Nat.eqb_spec C 1); [|now destruct (rev ipre)].
  assert (j = 0) as -> by lia. now destruct (rev ipre).
Qed.

Lemma broadcast2_vec (f : R -> R -> R) (err : exn) (x : Tensor) (l : list R)
  (pre : list nat) (C : nat) :
  shape x = pre ++ [C] -> length l = C ->
  exists y, broadcast2 f err x (np_asarray l) = Ok y /\
            shape y = pre ++ [C] /\
            forall idx, in_range (pre ++ [C]) idx ->
                        elem y idx = f (elem x idx) (nth (last idx 0) l 0%R).
Proof.
  intros Hx Hl. unfold broadcast2. simpl. rewrite Hx, Hl, broadcast_shapes_vec.
  eexists. split; [reflexivity|]. split; [reflexivity|].
  intros idx Hidx. simpl.
  rewrite (bindex_self _ _ Hidx).
  destruct (in_range_snoc _ _ _ Hidx) as (ipre & j & -> & _ & Hj).
  rewrite (bindex_vec _ _ _ Hj), last_last. reflexivity.
Qed.

Lemma ensure_batched_cases (arr : Tensor) (last_dim : nat) :
  (ndim arr = 2 /\ nth 1 (shape arr) 0 = last_dim /\
   ensure_batched arr last_dim = Ok (expand_front arr)) \/
  (ndim arr = 3 /\ nth 2 (shape arr) 0 = last_dim /\
   ensure_batched arr last_dim = Ok arr) \/
  (~ shape_accepted arr last_dim /\ ensure_batched arr last_dim = Raise ValueError).
Proof.
  unfold ensure_batched, shape_accepted.
  destruct (Nat.eqb_spec (ndim arr) 2) as [H2|H2];
    destruct (Nat.eqb_spec (nth 1 (shape arr) 0) last_dim) as [E1|E1]; cbn [andb];
    try (left; now auto);
    destruct (Nat.eqb_spec (ndim arr) 3) as [H3|H3];
    destruct (Nat.eqb_spec (nth 2 (shape arr) 0) last_dim) as [E2|E2]; cbn [andb];
    try (right; left; now auto);
    right; right; (split; [|reflexivity]); intros [[? ?]|[? ?]]; congruence.
Qed.

Lemma api_setup_target_error (art : Artifacts) (req : OptimizeParamsRequest) (e : exn) :
  ensure_batched (target_kpi req) 3 = Raise e -> api_setup art req = Raise e.
Proof. intros H. unfold api_setup. now rewrite H. Qed.

Lemma api_setup_baseline_error (art : Artifacts) (req : OptimizeParamsRequest)
  (op : Tensor) (e : exn) :
  orig_params req = Some op ->
  ensure_batched op 8 = Raise e ->
  exists e', api_setup art req = Raise e'.
Proof.
  intros Hop H. unfold api_setup.
  destruct (ensure_batched (target_kpi req) 3) as [tgt|e1]; cbn [bind]; [|eauto].
  destruct (apply_indices tgt (kpi_indices req)) as [tgt'|e2]; cbn [bind]; [|eauto].
  destruct (normalise tgt' 3 _ _) as [yz|e3]; cbn [bind]; [|eauto].
  destruct (transpose021 yz) as [yzt|e4]; cbn [bind]; [|eauto].
  destruct (shape tgt') as [|B [|T [|c [|? ?]]]]; eauto.
  rewrite Hop, H. cbn [bind]. eauto.
Qed.

(** C9.  [ensure_batched] raises [ValueError] exactly when the array is
    neither of rank 2 nor of rank 3 with last extent [last_dim], and
    returns otherwise; a rank-2 array with that last extent is promoted
    to a batch of one holding the same elements.  At its call sites (3
    for the target KPIs, 8 for the parameters) the error aborts
    [optimize_params_api] and [predict_kpi]: no iteration runs and no
    array is returned. *)
Theorem ensure_batched_shape_error (arr : Tensor) (last_dim : nat) :
  (ensure_batched arr last_dim = Raise ValueError <-> ~ shape_accepted arr last_dim) /\
  (is_ok (ensure_batched arr last_dim) = true <-> shape_accepted arr last_dim) /\
  (ndim arr = 2 -> nth 1 (shape arr) 0 = last_dim ->
   ensure_batched arr last_dim = Ok (expand_front arr) /\
   shape (expand_front arr) = 1 :: shape arr /\
   forall idx, elem (expand_front arr) (0 :: idx) = elem arr idx) /\
  (forall O art req,
     ~ shape_accepted (target_kpi req) 3 ->
     optimize_params_api O art req = ([], Raise ValueError)) /\
  (forall O art req op,
     orig_params req = Some op -> ~ shape_accepted op 8 ->
     exists e, optimize_params_api O art req = ([], Raise e)) /\
  (forall art req,
     ~ shape_accepted (params req) 8 -> predict_kpi art req = Raise ValueError).
Proof.
  pose proof (ensure_batched_cases arr last_dim) as Hc.
  split; [|split; [|split; [|split; [|split]]]].
  - destruct Hc as [(H2 & E & ->)|[(H3 & E & ->)|(Hn & ->)]]; split;
      try discriminate; try tauto; unfold shape_accepted; intros Hn; exfalso; tauto.
  - destruct Hc as [(H2 & E & ->)|[(H3 & E & ->)|(Hn & ->)]]; cbn [is_ok];
      unfold shape_accepted in *; split; try discriminate; try tauto.
  - intros H2 E.
    destruct Hc as [(_ & _ & ->)|[(H3 & _ & _)|(Hn & _)]].
    + repeat split.
    + congruence.
    + exfalso. apply Hn. left. auto.
  - intros O art req Hn. unfold optimize_params_api.
    destruct (ensure_batched_cases (target_kpi req) 3)
      as [(H2 & E & _)|[(H3 & E & _)|(_ & Hr)]].
    + exfalso. apply Hn. left. auto.
    + exfalso. apply Hn. right. auto.
    + now rewrite (api_setup_target_error art req _ Hr).
  - intros O art req op Hop Hn. unfold optimize_params_api.
    destruct (ensure_batched_cases op 8) as [(H2 & E & _)|[(H3 & E & _)|(_ & Hr)]].
    + exfalso. apply Hn. left. auto.
    + exfalso. apply Hn. right. auto.
    + destruct (api_setup_baseline_error art req op _ Hop Hr) as (e & ->). eauto.
  - intros art req Hn. unfold predict_kpi.
    destruct (ensure_batched_cases (params req) 8)
      as [(H2 & E & _)|[(H3 & E & _)|(_ & ->)]].
    + exfalso. apply Hn. left. auto.
    + exfalso. apply Hn. right. auto.
    + reflexivity.
Qed.

Lemma shape_eqb_refl (sh : list nat) : shape_eqb sh sh = true.
Proof. unfold shape_eqb. destruct (list_eq_dec Nat.eq_dec sh sh); congruence. Qed.

Lemma flat8_ok (p : Tensor) (B T : nat) :
  shape p = [B; 8; T] ->
  exists x4, flat8_to_stgcn_x p = Ok x4 /\ shape x4 = [B; 3; T; 3] /\
    forall b c t,
      elem x4 [b; c; t; 0] = elem p [b; c; t] /\
      elem x4 [b; c; t; 1] = elem p [b; 3 + c; t] /\
      elem x4 [b; c; t; 2] = (if c <? 2 then elem p [b; 6 + c; t] else 0%R).
Proof.
  intros Hp. unfold flat8_to_stgcn_x, slice_channels, cat_channels, stack3_last.
  rewrite Hp. cbn [Nat.eqb negb shape Nat.min Nat.sub bind zeros].
  rewrite !Nat.eqb_refl. cbn [andb bind shape Nat.add].
  rewrite !shape_eqb_refl. cbn [andb].
  eexists. split; [reflexivity|]. split; [reflexivity|].
  intros b c t. cbn. repeat split.
Qed.

(** C10.  On a [[B, 8, T]] array [flat8_to_stgcn_x] returns a
    [[B, 3, T, 3]] array whose node 0 holds channels 0-2, node 1 channels
    3-5 and node 2 channels 6-7 followed by a zero channel; it raises
    [AssertionError] when the channel extent is not 8 (and [ValueError]
    when the array is not of rank 3). *)
Theorem flat8_to_stgcn_x_layout (p : Tensor) :
  (forall B T, shape p = [B; 8; T] ->
     exists x4, flat8_to_stgcn_x p = Ok x4 /\ shape x4 = [B; 3; T; 3] /\
       forall b c t,
         elem x4 [b; c; t; 0] = elem p [b; c; t] /\
         elem x4 [b; c; t; 1] = elem p [b; 3 + c; t] /\
         elem x4 [b; c; t; 2] = (if c <? 2 then elem p [b; 6 + c; t] else 0%R)) /\
  (forall B C8 T, shape p = [B; C8; T] -> C8 <> 8 ->
     flat8_to_stgcn_x p = Raise AssertionError) /\
  (ndim p <> 3 -> flat8_to_stgcn_x p = Raise ValueError).
Proof.
  split; [|split].
  - intros B T Hp. exact (flat8_ok p B T Hp).
  - intros B C8 T Hp Hne. unfold flat8_to_stgcn_x. rewrite Hp.
    destruct (Nat.eqb_spec C8 8); [contradiction|reflexivity].
  - intros Hn. unfold flat8_to_stgcn_x, ndim in *.
    destruct (shape p) as [|B [|C8 [|T [|? ?]]]]; try reflexivity.
    exfalso. apply Hn. reflexivity.
Qed.





Lemma conv2d_of_shape (cv : Conv2d) (x : Tensor) (sh : list nat) :
  conv2d_shape cv (shape x) = Ok sh ->
  exists y, conv2d cv x = Ok y /\ shape y = sh.
Proof.
  intros H. unfold conv2d. rewrite H. cbn [bind].
  destruct (kernel_size cv), (padding cv). eauto.
Qed.

Lemma conv2d_raises_on_channels (cv : Conv2d) (x : Tensor) (B C T V : nat) :
  shape x = [B; C; T; V] -> C <> in_channels cv ->
  conv2d cv x = Raise RuntimeError.
Proof.
  intros Hx Hc. unfold conv2d, conv2d_shape. rewrite Hx.
  destruct (kernel_size cv), (padding cv).
  destruct (Nat.eqb_spec C (in_channels cv)); [contradiction|reflexivity].
Qed.

Lemma conv2d_ok_channels (cv : Conv2d) (x y : Tensor) (B C T V : nat) :
  shape x = [B; C; T; V] -> conv2d cv x = Ok y -> C = in_channels cv.
Proof.
  intros Hx Hy. destruct (Nat.eq_dec C (in_channels cv)) as [|Hne]; [assumption|].
  rewrite (conv2d_raises_on_channels cv x B C T V Hx Hne) in Hy. discriminate.
Qed.

Lemma odd_half (k : nat) : Nat.odd k = true -> 2 * (k / 2) + 1 = k.
Proof.
  intros H. apply Nat.odd_spec in H. destruct H as (r & ->).
  replace (2 * r + 1) with (1 + r * 2) by lia.
  rewrite Nat.div_add by lia. simpl. lia.
Qed.

Lemma TemporalConv_shape (cin cout k : nat) (p : ConvParams) (x : Tensor)
  (B T V : nat) :
  Nat.odd k = true -> 1 <= T -> 1 <= V ->
  shape x = [B; cin; T; V] ->
  exists y, TemporalConv_forward (TemporalConv cin cout k p) x = Ok y /\
            shape y = [B; cout; T; V].
Proof.
  intros Hk HT HV Hx. unfold TemporalConv_forward.
  pose proof (odd_half k Hk) as Hh.
  assert (Hsh : conv2d_shape (TemporalConv cin cout k p) (shape x)
                = Ok [B; cout; T; V]).
  { rewrite Hx. unfold conv2d_shape, TemporalConv.
    cbn [kernel_size padding in_channels out_channels].
    rewrite Nat.eqb_refl. cbn [negb].
    destruct (Nat.eqb_spec k 0) as [->|_]; [discriminate|]. cbn [orb Nat.eqb].
    destruct (Nat.ltb_spec (T + 2 * (k / 2)) k); [lia|].
    destruct (Nat.ltb_spec (V + 2 * 0) 1); [lia|]. cbn [orb].
    replace (T + 2 * (k / 2) - k + 1) with T by lia.
    replace (V + 2 * 0 - 1 + 1) with V by lia. reflexivity. }
  destruct (conv2d_of_shape _ _ _ Hsh) as (y & -> & Hy).
  cbn [bind]. eexists. split; [reflexivity|]. exact Hy.
Qed.

Lemma pointwise_conv_shape (cin cout : nat) (w : nat -> nat -> nat -> nat -> R)
  (b : nat -> R) (x : Tensor) (B T V : nat) :
  1 <= T -> 1 <= V ->
  shape x = [B; cin; T; V] ->
  exists y, conv2d (mkConv2d cin cout (1, 1) (0, 0) w b) x = Ok y /\
            shape y = [B; cout; T; V].
Proof.
  intros HT HV Hx. apply conv2d_of_shape. rewrite Hx.
  unfold conv2d_shape. cbn [kernel_size padding in_channels out_channels].
  rewrite Nat.eqb_refl. cbn [negb Nat.eqb orb].
  destruct (Nat.ltb_spec (T + 2 * 0) 1); [lia|].
  destruct (Nat.ltb_spec (V + 2 * 0) 1); [lia|]. cbn [orb].
  replace (T + 2 * 0 - 1 + 1) with T by lia.
  replace (V + 2 * 0 - 1 + 1) with V by lia. reflexivity.
Qed.

Lemma normalized_adjacency_three :
  exists n, normalized_adjacency (make_adj 3) = Ok n /\ shape n = [3; 3].
Proof.
  unfold normalized_adjacency, broadcast2, make_adj.
  cbn [shape eye broadcast_shapes rev app bshape_rev Nat.eqb option_map bind
       sum_dim1 tmap diag matmul].
  eexists. split; reflexivity.
Qed.

Lemma GraphConv_shape (x : Tensor) (B C T : nat) :
  shape x = [B; C; T; 3] ->
  exists y, GraphConv x (make_adj 3) = Ok y /\ shape y = [B; C; T; 3].
Proof.
  intros Hx. unfold GraphConv.
  destruct normalized_adjacency_three as (n & -> & Hn). cbn [bind].
  unfold einsum_bctv_vw. rewrite Hx, Hn. cbn [Nat.eqb orb].
  eexists. split; reflexivity.
Qed.

Lemma mean_last_keepdim_shape4 (x : Tensor) (B C T V : nat) :
  shape x = [B; C; T; V] ->
  exists y, mean_last_keepdim x = Ok y /\ shape y = [B; C; T; 1] /\
    forall b c t,
      elem y [b; c; t; 0] = (rsum V (fun v => elem x [b; c; t; v]) / INR V)%R.
Proof.
  intros Hx. unfold mean_last_keepdim. rewrite Hx. cbn [rev app].
  eexists. split; [reflexivity|]. split; [reflexivity|].
  intros b c t. reflexivity.
Qed.

Lemma STGCN_forward_shape (env : Environ) (ck : Checkpoint) (sc : Scaler)
  (x : Tensor) (B T : nat) :
  deployed env -> 1 <= T ->
  shape x = [B; 3; T; 3] ->
  let art := load_artifacts env ck sc in
  exists h, STGCN_forward (STGCN_MODEL art) x (ADJ art) = Ok h /\
            shape h = [B; HID_CHANNELS env; T; 3].
Proof.
  intros (Hin & Hn & Hk) HT Hx art. unfold art, load_artifacts.
  cbn [STGCN_MODEL ADJ]. rewrite Hin, Hn.
  unfold STGCN_forward, STGCNBlock_forward, new_STGCN, new_STGCNBlock.
  cbn [block final temp1 temp2].
  destruct (TemporalConv_shape 3 64 (KERNEL_SIZE env) (ck_temp1 ck) x B T 3)
    as (x1 & -> & H1); try assumption; try lia.
  cbn [bind].
  destruct (GraphConv_shape x1 B 64 T H1) as (x2 & -> & H2). cbn [bind].
  destruct (TemporalConv_shape 64 64 (KERNEL_SIZE env) (ck_temp2 ck) x2 B T 3)
    as (x3 & -> & H3); try assumption; try lia.
  cbn [bind].
  apply pointwise_conv_shape; try assumption; lia.
Qed.

Lemma predict_shape (env : Environ) (ck : Checkpoint) (sc : Scaler)
  (p : Tensor) (B T : nat) :
  deployed env -> 1 <= T ->
  shape p = [B; 8; T] ->
  exists pred, predict (load_artifacts env ck sc) p = Ok pred /\
               shape pred = [B; 3; T; 1].
Proof.
  intros Hd HT Hp. unfold predict.
  destruct (flat8_ok p B T Hp) as (x4 & -> & H4 & _). cbn [bind].
  destruct (STGCN_forward_shape env ck sc x4 B T Hd HT H4) as (h & -> & Hh).
  cbn [bind].
  destruct (mean_last_keepdim_shape4 h _ _ _ _ Hh) as (feat & -> & Hf & _).
  cbn [bind]. unfold load_artifacts. cbn [KPI_HEAD].
  apply pointwise_conv_shape; try assumption; lia.
Qed.









Lemma numel_snoc (pre : list nat) (c : nat) : numel (pre ++ [c]) = numel pre * c.
Proof.
  induction pre as [|d pre IH]; cbn [numel app fold_right] in *; [lia|].
  fold (numel (pre ++ [c])). fold (numel pre). rewrite IH. lia.
Qed.

Lemma reshape_rows_ok (x : Tensor) (pre : list nat) (c : nat) :
  shape x = pre ++ [c] -> c <> 0 ->
  exists r, reshape_rows x c = Ok r /\ shape r = [numel pre] ++ [c].
Proof.
  intros Hx Hc. unfold reshape_rows, reshape.
  destruct (Nat.eqb_spec c 0); [contradiction|].
  rewrite Hx, numel_snoc, Nat.Div0.mod_mul, Nat.eqb_refl, Nat.div_mul by exact Hc.
  replace (numel [numel pre; c] =? numel pre * c) with true.
  - eexists. split; reflexivity.
  - symmetry. apply Nat.eqb_eq. cbn. lia.
Qed.

Lemma z_apply_ok (arr : Tensor) (stat : ScalerStat) (pre : list nat) (C : nat) :
  shape arr = pre ++ [C] -> length (mean stat) = C -> length (std stat) = C ->
  exists y, z_apply arr stat = Ok y /\ shape y = pre ++ [C].
Proof.
  intros Harr Hm Hs. unfold z_apply.
  destruct (broadcast2_vec Rminus ValueError arr (mean stat) pre C Harr Hm)
    as (d & -> & Hd & _).
  cbn [bind].
  destruct (broadcast2_vec Rdiv ValueError d (map guard_std (std stat)) pre C Hd)
    as (y & -> & Hy & _); [now rewrite length_map|].
  eauto.
Qed.

Lemma z_inv_ok (arr : Tensor) (stat : ScalerStat) (pre : list nat) (C : nat) :
  shape arr = pre ++ [C] -> length (mean stat) = C -> length (std stat) = C ->
  exists y, z_inv arr stat = Ok y /\ shape y = pre ++ [C].
Proof.
  intros Harr Hm Hs. unfold z_inv.
  destruct (broadcast2_vec Rmult ValueError arr (std stat) pre C Harr Hs)
    as (m & -> & Hm' & _).
  cbn [bind].
  destruct (broadcast2_vec Rplus ValueError m (mean stat) pre C Hm' Hm)
    as (z & -> & Hz & _).
  eauto.
Qed.







Lemma normalise_to (arr : Tensor) (stat : ScalerStat) (pre sh : list nat) (c : nat) :
  shape arr = pre ++ [c] -> c <> 0 -> stat_for c stat ->
  numel sh = numel pre * c ->
  exists y, normalise arr c stat sh = Ok y /\ shape y = sh.
Proof.
  intros Harr Hc (Hm & Hs) Hn. unfold normalise.
  destruct (reshape_rows_ok arr pre c Harr Hc) as (r & -> & Hr). cbn [bind].
  destruct (z_apply_ok r stat _ c Hr Hm Hs) as (z & -> & Hz). cbn [bind].
  unfold reshape. rewrite Hz, Hn.
  replace (numel pre * c =? numel ([numel pre] ++ [c])) with true.
  - eexists. split; reflexivity.
  - symmetry. apply Nat.eqb_eq. cbn. lia.
Qed.

Lemma denormalise_to (arr : Tensor) (stat : ScalerStat) (pre sh : list nat) (c : nat) :
  shape arr = pre ++ [c] -> c <> 0 -> stat_for c stat ->
  numel sh = numel pre * c ->
  exists y, denormalise arr c stat sh = Ok y /\ shape y = sh.
Proof.
  intros Harr Hc (Hm & Hs) Hn. unfold denormalise.
  destruct (reshape_rows_ok arr pre c Harr Hc) as (r & -> & Hr). cbn [bind].
  destruct (z_inv_ok r stat _ c Hr Hm Hs) as (z & -> & Hz). cbn [bind].
  unfold reshape. rewrite Hz, Hn.
  replace (numel pre * c =? numel ([numel pre] ++ [c])) with true.
  - eexists. split; reflexivity.
  - symmetry. apply Nat.eqb_eq. cbn. lia.
Qed.

Lemma ensure_batched_to (arr : Tensor) (B T c : nat) :
  shape arr = [B; T; c] \/ (B = 1 /\ shape arr = [T; c]) ->
  exists y, ensure_batched arr c = Ok y /\ shape y = [B; T; c].
Proof.
  unfold ensure_batched, ndim. intros [H|(-> & H)]; rewrite H; cbn [length nth Nat.eqb].
  - rewrite Nat.eqb_refl. cbn [andb]. eauto.
  - rewrite Nat.eqb_refl. cbn [andb]. eexists. split; [reflexivity|].
    cbn. now rewrite H.
Qed.



Lemma deployed_empty_env : deployed empty_env.
Proof. repeat split. Qed.












Lemma rsum_ext (n : nat) (f g : nat -> R) :
  (forall i, i < n -> f i = g i) -> rsum n f = rsum n g.
Proof.
  induction n as [|n IH]; intros H; cbn [rsum]; [reflexivity|].
  rewrite IH by (intros i Hi; apply H; lia).
  rewrite H by lia. reflexivity.
Qed.

Lemma flat8_inv (p x4 : Tensor) :
  flat8_to_stgcn_x p = Ok x4 ->
  exists B T, shape p = [B; 8; T] /\ shape x4 = [B; 3; T; 3].
Proof.
  intros H.
  destruct (shape p) as [|B [|C8 [|T [|? ?]]]] eqn:Hs;
    try (unfold flat8_to_stgcn_x in H; rewrite Hs in H; discriminate).
  destruct (Nat.eq_dec C8 8) as [->|Hne].
  - exists B, T. split; [reflexivity|].
    destruct (flat8_ok p B T Hs) as (x & Hx & Hsh & _). congruence.
  - unfold flat8_to_stgcn_x in H. rewrite Hs in H.
    destruct (Nat.eqb_spec C8 8); [contradiction|discriminate].
Qed.

Lemma pointwise_conv_elem (cin cout : nat) (w : nat -> nat -> nat -> nat -> R)
  (bs : nat -> R) (x y : Tensor) (B T : nat) :
  shape x = [B; cin; T; 1] ->
  conv2d (mkConv2d cin cout (1, 1) (0, 0) w bs) x = Ok y ->
  forall b o t, t < T ->
    elem y [b; o; t; 0] =
    (bs o + rsum cin (fun c => w o c 0%nat 0%nat * elem x [b; c; t; 0]%nat))%R.
Proof.
  intros Hx Hy b o t Ht. unfold conv2d in Hy.
  destruct (conv2d_shape _ (shape x)) as [sh|]; cbn [bind] in Hy; [|discriminate].
  cbn [kernel_size padding in_channels bias weight] in Hy.
  injection Hy as <-. cbn [elem]. rewrite Hx. cbn [nth]. f_equal.
  apply rsum_ext. intros c _. cbn [rsum]. unfold padded.
  replace (t + 0) with t by lia.
  destruct (Nat.ltb_spec t (T + 0)) as [_|]; [|lia].
  cbn [Nat.leb Nat.add Nat.sub andb].
  destruct (Nat.ltb_spec 0 1) as [_|]; [|lia].
  replace (t - 0) with t by lia. lra.
Qed.

(** C2, as amended.  On the optimisation path the hidden features
    [[B, C, T, 3]] are averaged over the node axis (the last one), not
    over time, and [KPI_HEAD] is applied to the result at every time
    step: the prediction fed into the fit loss has shape [[B, 3, T, 1]],
    one KPI estimate per time step, computed from the node average of
    the features at that time step. *)
Theorem node_pooled_prediction (env : Environ) (ck : Checkpoint) (sc : Scaler)
  (p : Tensor) (B T : nat) :
  deployed env -> 1 <= T -> shape p = [B; 8; T] ->
  let art := load_artifacts env ck sc in
  exists x4 h feat pred,
    flat8_to_stgcn_x p = Ok x4 /\
    STGCN_forward (STGCN_MODEL art) x4 (ADJ art) = Ok h /\
    shape h = [B; HID_CHANNELS env; T; 3] /\
    mean_last_keepdim h = Ok feat /\
    shape feat = [B; HID_CHANNELS env; T; 1] /\
    (forall b c t,
       elem feat [b; c; t; 0] =
       ((elem h [b; c; t; 0]%nat + elem h [b; c; t; 1]%nat + elem h [b; c; t; 2]%nat) / 3)%R) /\
    predict art p = Ok pred /\
    shape pred = [B; 3; T; 1] /\
    (forall b o t, t < T ->
       elem pred [b; o; t; 0] =
       (bias (KPI_HEAD art) o +
        rsum (HID_CHANNELS env)
          (fun c => weight (KPI_HEAD art) o c 0%nat 0%nat * elem feat [b; c; t; 0]%nat))%R).
Proof.
  intros Hd HT Hp art.
  destruct (flat8_ok p B T Hp) as (x4 & Hx4 & H4 & _).
  destruct (STGCN_forward_shape env ck sc x4 B T Hd HT H4) as (h & Hh & Hsh).
  destruct (mean_last_keepdim_shape4 h _ _ _ _ Hsh) as (feat & Hf & Hsf & Ef).
  destruct (predict_shape env ck sc p B T Hd HT Hp) as (pred & Hpred & Hsp).
  exists x4, h, feat, pred. fold art in Hh, Hpred.
  repeat (split; [assumption|]).
  split.
  { intros b c t. rewrite Ef. cbn [rsum].
    replace (INR 3) with 3%R by (cbn; lra). lra. }
  repeat (split; [assumption|]).
  unfold predict in Hpred. fold art in Hpred.
  rewrite Hx4 in Hpred. cbn [bind] in Hpred. rewrite Hh in Hpred.
  cbn [bind] in Hpred. rewrite Hf in Hpred. cbn [bind] in Hpred.
  intros b o t Ht.
  exact (pointwise_conv_elem _ _ _ _ feat pred B T Hsf Hpred b o t Ht).
Qed.

Lemma node_pooled_prediction_witness :
  exists pred,
    predict sample_artifacts sample_params = Ok pred /\ shape pred = [1; 3; 2; 1].
Proof.
  destruct (node_pooled_prediction empty_env sample_checkpoint sample_scaler
              sample_params 1 2 deployed_empty_env (le_S 1 1 (le_n 1)) eq_refl)
    as (x4 & h & feat & pred & _ & _ & _ & _ & _ & _ & Hp & Hs & _).
  exists pred. split; [exact Hp|exact Hs].
Defined.

Lemma mean_time_keepdim_shape (x : Tensor) (B C T V : nat) :
  shape x = [B; C; T; V] ->
  exists y, mean_time_keepdim x = Ok y /\ shape y = [B; C; 1; V].
Proof.
  intros Hx. unfold mean_time_keepdim. rewrite Hx. eauto.
Qed.

Lemma spec_predict_shape (env : Environ) (ck : Checkpoint) (sc : Scaler)
  (p : Tensor) (B T : nat) :
  deployed env -> 1 <= T ->
  shape p = [B; 8; T] ->
  exists pred, spec_predict_time_pooled (load_artifacts env ck sc) p = Ok pred /\
               shape pred = [B; 3; 1; 3].
Proof.
  intros Hd HT Hp. unfold spec_predict_time_pooled.
  destruct (flat8_ok p B T Hp) as (x4 & -> & H4 & _). cbn [bind].
  destruct (STGCN_forward_shape env ck sc x4 B T Hd HT H4) as (h & -> & Hh).
  cbn [bind].
  destruct (mean_time_keepdim_shape h _ _ _ _ Hh) as (feat & -> & Hf).
  cbn [bind]. unfold load_artifacts. cbn [KPI_HEAD].
  apply pointwise_conv_shape; try assumption; lia.
Qed.

(** C2, counterexample.  On a decision array of two time steps the
    prediction of the code is not the one obtained by averaging the
    features over time: it has two time steps, not one. *)
Lemma time_pooling_counterexample :
  ~ (exists y y',
       predict sample_artifacts sample_params = Ok y /\
       spec_predict_time_pooled sample_artifacts sample_params = Ok y' /\
       same_tensor y y') /\
  (exists y, predict sample_artifacts sample_params = Ok y /\
             nth 2 (shape y) 0 = 2).
Proof.
  destruct (predict_shape empty_env sample_checkpoint sample_scaler sample_params
              1 2 deployed_empty_env (le_S 1 1 (le_n 1)) eq_refl) as (y0 & Hy0 & Hs0).
  destruct (spec_predict_shape empty_env sample_checkpoint sample_scaler
              sample_params 1 2 deployed_empty_env (le_S 1 1 (le_n 1)) eq_refl)
    as (y1 & Hy1 & Hs1).
  fold sample_artifacts in Hy0, Hy1.
  split.
  - intros (y & y' & Hy & Hy' & Hsame & _).
    rewrite Hy0 in Hy. rewrite Hy1 in Hy'.
    injection Hy as <-. injection Hy' as <-.
    rewrite Hs0, Hs1 in Hsame. discriminate.
  - exists y0. split; [exact Hy0|]. now rewrite Hs0.
Qed.

(** C3, as amended.  The first temporal filter maps [IN_CHANNELS]
    (3 unless the environment overrides it) input channels to 64, the
    second 64 to 64; the array it receives is the [[B, 3, T, 3]] output of
    [flat8_to_stgcn_x] (eight parameter channels regrouped over three
    nodes), and whenever a prediction succeeds the filter has exactly 3
    input channels. *)
Theorem first_filter_channels (env : Environ) (ck : Checkpoint) (sc : Scaler) :
  let art := load_artifacts env ck sc in
  let first := temp1 (block (STGCN_MODEL art)) in
  in_channels first = IN_CHANNELS env /\
  out_channels first = 64 /\
  IN_CHANNELS empty_env = 3 /\
  in_channels (temp2 (block (STGCN_MODEL art))) = 64 /\
  out_channels (temp2 (block (STGCN_MODEL art))) = 64 /\
  (forall p y, predict art p = Ok y ->
     in_channels first = 3 /\
     exists B T x4,
       shape p = [B; 8; T] /\ flat8_to_stgcn_x p = Ok x4 /\ shape x4 = [B; 3; T; 3]).
Proof.
  intros art first. repeat (split; [reflexivity|]).
  intros p y Hy. unfold predict in Hy.
  destruct (flat8_to_stgcn_x p) as [x4|] eqn:Hx4; cbn [bind] in Hy; [|discriminate].
  destruct (flat8_inv p x4 Hx4) as (B & T & Hp & H4).
  split; [|exists B, T, x4; auto].
  unfold STGCN_forward, STGCNBlock_forward, TemporalConv_forward in Hy.
  fold first in Hy.
  destruct (conv2d first x4) as [x1|] eqn:Hc; cbn [bind] in Hy; [|discriminate].
  symmetry. exact (conv2d_ok_channels first x4 x1 B 3 T 3 H4 Hc).
Qed.

Lemma first_filter_channels_witness :
  in_channels (temp1 (block (STGCN_MODEL sample_artifacts))) = 3.
Proof.
  destruct (predict_shape empty_env sample_checkpoint sample_scaler sample_params
              1 2 deployed_empty_env (le_S 1 1 (le_n 1)) eq_refl) as (pred & Hp & _).
  destruct (first_filter_channels empty_env sample_checkpoint sample_scaler)
    as (_ & _ & _ & _ & _ & H).
  exact (proj1 (H sample_params pred Hp)).
Defined.

(** C3, counterexample.  With the default configuration the first
    temporal filter has 3 input channels, not 8, and it rejects an
    8-channel array. *)
Lemma first_filter_counterexample :
  in_channels (temp1 (block (STGCN_MODEL sample_artifacts))) <> 8 /\
  out_channels (temp1 (block (STGCN_MODEL sample_artifacts))) = 64 /\
  TemporalConv_forward (temp1 (block (STGCN_MODEL sample_artifacts)))
    (unsqueeze_last sample_params) = Raise RuntimeError.
Proof.
  split; [cbn; discriminate|]. split; [reflexivity|].
  unfold TemporalConv_forward.
  rewrite (conv2d_raises_on_channels _ (unsqueeze_last sample_params) 1 8 2 1).
  - reflexivity.
  - reflexivity.
  - cbn. discriminate.
Qed.

(** *** The remaining theorems at sample inputs *)

Lemma ensure_batched_shape_error_witness :
  ensure_batched sample_target 3 = Ok (expand_front sample_target) /\
  shape (expand_front sample_target) = [1; 2; 3].
Proof.
  destruct (ensure_batched_shape_error sample_target 3) as (_ & _ & H & _).
  destruct (H eq_refl eq_refl) as (Hok & Hsh & _).
  split; [exact Hok|exact Hsh].
Defined.

Lemma flat8_to_stgcn_x_layout_witness :
  exists x4, flat8_to_stgcn_x sample_params = Ok x4 /\ shape x4 = [1; 3; 2; 3].
Proof.
  destruct (flat8_to_stgcn_x_layout sample_params) as (H & _).
  destruct (H 1 2 eq_refl) as (x4 & Hx & Hs & _).
  exists x4. split; [exact Hx|exact Hs].
Defined.

(** *** Concrete evaluations *)

(** Channel [c] of the input holds the value [c]: node 1 of output
    channel 1 reads input channel 4, node 2 of output channel 1 reads
    input channel 7, and node 2 of output channel 2 is the padding. *)
Example flat8_to_stgcn_x_values :
  exists x,
    flat8_to_stgcn_x (mkTensor [1; 8; 1] (fun idx => INR (nth 1 idx 0))) = Ok x /\
    elem x [0; 1; 0; 1] = 4%R /\ elem x [0; 1; 0; 2] = 7%R /\
    elem x [0; 2; 0; 2] = 0%R /\ elem x [0; 2; 0; 0] = 2%R.
Proof.
  unfold flat8_to_stgcn_x. cbn. eexists. split; [reflexivity|].
  cbn. repeat split; lra.
Qed.

Module ValidatorFacts.

Import Validator.
Import String.
Local Open Scope string_scope.

Lemma py_float_exn (value : pyval) (e : exn) :
  py_float value = Raise e -> e = ValueError \/ e = TypeError \/ e = OverflowError.
Proof.
  destruct value as [z|f|s| | |]; cbn.
  - destruct (dbl_overflow _); [intros [= <-]; auto|discriminate].
  - discriminate.
  - unfold float_of_string.
    destruct (read_sign _) as (neg & body).
    destruct (_ || _); [discriminate|].
    destruct (_ =? _)%string; [discriminate|].
    destruct (read_floatnumber body) as [q|]; [|intros [= <-]; auto].
    destruct (dbl_overflow q); discriminate.
  - discriminate.
  - intros [= <-]; auto.
  - intros [= <-]; auto.
Qed.

Lemma py_int_exn (f : pyfloat) (e : exn) :
  py_int f = Raise e -> e = ValueError \/ e = OverflowError.
Proof. destruct f; cbn; try discriminate; intros [= <-]; auto. Qed.

Lemma _validate_int_range_exn (value : pyval) (lo hi : Z) (e : exn) :
  _validate_int_range value lo hi = Raise e -> e = ValueError \/ e = OverflowError.
Proof.
  unfold _validate_int_range.
  destruct (py_float value) as [f|e1] eqn:Hf; cbn [bind].
  - destruct (py_int f) as [i|e2] eqn:Hi; cbn [bind].
    + destruct (_ && _); cbn; [discriminate|intros [= <-]; auto].
    + destruct (py_int_exn f e2 Hi) as [->| ->]; cbn; intros [= <-]; auto.
  - destruct (py_float_exn value e1 Hf) as [->|[->| ->]]; cbn; intros [= <-]; auto.
Qed.

Lemma _validate_float_range_exn (value : pyval) (lo hi : pyfloat) (e : exn) :
  _validate_float_range value lo hi = Raise e -> e = ValueError \/ e = OverflowError.
Proof.
  unfold _validate_float_range.
  destruct (py_float value) as [f|e1] eqn:Hf; cbn [bind].
  - destruct (_ && _); cbn; [discriminate|intros [= <-]; auto].
  - destruct (py_float_exn value e1 Hf) as [->|[->| ->]]; cbn; intros [= <-]; auto.
Qed.

Lemma param_validators_exn (param : string) (validator : pyval -> result pyval)
  (value : pyval) (e : exn) :
  param_validators param = Some validator -> validator value = Raise e ->
  e = ValueError \/ e = OverflowError.
Proof.
  unfold param_validators. intros Hv He.
  repeat match type of Hv with
         | (if ?c then _ else _) = _ => destruct c
         end;
    try discriminate; injection Hv as <-;
    match type of He with
    | bind (_validate_int_range ?v ?lo ?hi) _ = _ =>
        destruct (_validate_int_range v lo hi) as [i|e1] eqn:H1; cbn [bind] in He;
        [discriminate|injection He as <-; exact (_validate_int_range_exn _ _ _ _ H1)]
    | bind (_validate_float_range ?v ?lo ?hi) _ = _ =>
        destruct (_validate_float_range v lo hi) as [i|e1] eqn:H1; cbn [bind] in He;
        [discriminate|injection He as <-; exact (_validate_float_range_exn _ _ _ _ H1)]
    end.
Qed.

(** The validator returns, or raises [OverflowError]. *)
Lemma validate_items_outcome (items safe : dict) (out : list diagnostic) :
  (exists r, validate_items items safe out = Ok r) \/
  validate_items items safe out = Raise OverflowError.
Proof.
  revert safe out. induction items as [|(param, value) rest IH]; intros safe out.
  - left. cbn. eauto.
  - cbn [validate_items].
    destruct (param_validators param) as [validator|] eqn:Hv; [|apply IH].
    destruct (validator value) as [v|e] eqn:He; [apply IH|].
    destruct (param_validators_exn param validator value e Hv He) as [->| ->].
    + apply IH.
    + now right.
Qed.

Lemma dict_get_set (d : dict) (k k' : string) (v : pyval) :
  dict_get (dict_set d k v) k' = if (k =? k') then Some v else dict_get d k'.
Proof.
  induction d as [|(k0, v0) d IH]; cbn [dict_set dict_get].
  - reflexivity.
  - destruct (String.eqb_spec k0 k) as [->|Hne]; cbn [dict_get].
    + destruct (String.eqb_spec k k'); reflexivity.
    + rewrite IH. destruct (String.eqb_spec k0 k') as [->|]; [|reflexivity].
      destruct (String.eqb_spec k k'); [congruence|reflexivity].
Qed.

Lemma dict_get_absent (d : dict) (k : string) :
  ~ In k (map fst d) -> dict_get d k = None.
Proof.
  induction d as [|(k0, v0) d IH]; cbn; [reflexivity|].
  intros Hn. destruct (String.eqb_spec k0 k) as [->|_]; [tauto|].
  apply IH. tauto.
Qed.

Lemma accepts_unfold (param : string) (value : pyval) :
  accepts param value =
  match param_validators param with
  | Some validator => match validator value with Ok v => Some v | Raise _ => None end
  | None => None
  end.
Proof. reflexivity. Qed.

(** When the loop returns, the entry it leaves for a key is the one the
    key's validator accepts, for a mapping with distinct keys. *)
Lemma validate_items_exact (items safe : dict) (out : list diagnostic)
  (safe' : dict) (out' : list diagnostic) :
  NoDup (map fst items) ->
  validate_items items safe out = Ok (safe', out') ->
  forall k,
    dict_get safe' k =
    match dict_get items k with
    | Some raw => match accepts k raw with Some v => Some v | None => dict_get safe k end
    | None => dict_get safe k
    end.
Proof.
  revert safe out. induction items as [|(param, value) rest IH];
    intros safe out Hnd H k.
  - cbn in H. injection H as <- <-. reflexivity.
  - cbn [map fst] in Hnd. inversion Hnd as [|? ? Hnotin Hnd']; subst.
    cbn [validate_items] in H. cbn [dict_get].
    destruct (String.eqb_spec param k) as [->|Hne].
    + rewrite accepts_unfold.
      assert (Hk : forall s1 o1, validate_items rest s1 o1 = Ok (safe', out') ->
                                 dict_get safe' k = dict_get s1 k).
      { intros s1 o1 H1.
        rewrite (IH _ _ Hnd' H1 k), (dict_get_absent rest k Hnotin). reflexivity. }
      destruct (param_validators k) as [validator|];
        [destruct (validator value) as [v|[]]|];
        try discriminate; rewrite (Hk _ _ H); try reflexivity.
      rewrite dict_get_set, String.eqb_refl. reflexivity.
    + assert (Hk : forall s1 o1, validate_items rest s1 o1 = Ok (safe', out') ->
                     dict_get s1 k = dict_get safe k ->
                     dict_get safe' k =
                     match dict_get rest k with
                     | Some raw => match accepts k raw with
                                   | Some v => Some v
                                   | None => dict_get safe k
                                   end
                     | None => dict_get safe k
                     end).
      { intros s1 o1 H1 E. rewrite (IH _ _ Hnd' H1 k), E. reflexivity. }
      destruct (param_validators param) as [validator|];
        [destruct (validator value) as [v|[]]|];
        try discriminate; eapply Hk; try exact H; try reflexivity.
      rewrite dict_get_set.
      destruct (String.eqb_spec param k); [contradiction|reflexivity].
Qed.

Lemma validate_exact (execution_config safe : dict) (out : list diagnostic) :
  NoDup (map fst execution_config) ->
  _validate_execution_params execution_config = Ok (safe, out) ->
  forall k,
    dict_get safe k =
    match dict_get execution_config k with
    | Some raw => accepts k raw
    | None => None
    end.
Proof.
  intros Hnd H k. unfold _validate_execution_params in H.
  rewrite (validate_items_exact _ _ _ _ _ Hnd H k). cbn [dict_get].
  destruct (dict_get execution_config k) as [raw|]; [|reflexivity].
  now destruct (accepts k raw).
Qed.

Lemma _validate_int_range_ok (value : pyval) (lo hi i : Z) :
  _validate_int_range value lo hi = Ok i -> (lo <= i <= hi)%Z.
Proof.
  unfold _validate_int_range.
  destruct (py_float value) as [f|[]]; cbn [bind except_value_type];
    try discriminate.
  destruct (py_int f) as [j|[]]; cbn [bind except_value_type]; try discriminate.
  destruct (Z.leb_spec lo j); destruct (Z.leb_spec j hi);
    cbn [andb except_value_type]; try discriminate.
  intros [= <-]. lia.
Qed.

Lemma _validate_float_range_ok (value : pyval) (lo hi f : pyfloat) :
  _validate_float_range value lo hi = Ok f ->
  float_le lo f = true /\ float_le f hi = true.
Proof.
  unfold _validate_float_range.
  destruct (py_float value) as [g|[]]; cbn [bind except_value_type];
    try discriminate.
  destruct (float_le lo g) eqn:H1; destruct (float_le g hi) eqn:H2;
    cbn [andb except_value_type]; try discriminate.
  intros [= <-]. auto.
Qed.

(** What an accepted value is: an integer in [[1, 10000]] for [steps], a
    float within the documented bounds for the six other keys. *)
Lemma accepts_bounds (param : string) (raw v : pyval) :
  accepts param raw = Some v ->
  (param = "steps" /\ exists i, v = PyInt i /\ (1 <= i <= 10000)%Z) \/
  (exists f lo hi, float_bounds param = Some (lo, hi) /\ v = PyFloat f /\
                   float_le lo f = true /\ float_le f hi = true).
Proof.
  unfold accepts, param_validators, float_bounds.
  destruct (String.eqb_spec param "steps") as [->|_].
  { destruct (_validate_int_range raw 1 10000) as [i|e] eqn:H; cbn [bind];
      [|discriminate].
    intros [= <-]. left. split; [reflexivity|].
    exists i. split; [reflexivity|]. exact (_validate_int_range_ok _ _ _ _ H). }
  intros H. right.
  repeat match type of H with
         | match (if ?c then _ else _) with _ => _ end = _ =>
             destruct c; cbn [orb]
         end; try discriminate;
    match type of H with
    | match bind (_validate_float_range raw ?lo ?hi) _ with _ => _ end = _ =>
        destruct (_validate_float_range raw lo hi) as [f|e] eqn:Hf; cbn [bind] in H;
        [|discriminate];
        injection H as <-; exists f, lo, hi;
        destruct (_validate_float_range_ok _ _ _ _ Hf); auto
    end.
Qed.

(** Numeric strings are accepted, [steps] is truncated to an integer,
    and values that are NaN, infinite or out of range are dropped. *)
Example validator_values :
  _validate_execution_params
    [("steps", PyStr " 1_0.5e1 "); ("lr", PyStr "1e-3"); ("zmin", PyStr "-3.");
     ("zmax", PyFloat PosInf); ("beta", PyStr ".5"); ("alpha", PyStr "nan");
     ("gamma", PyInt 101)]
  = Ok ([("steps", PyInt 105); ("lr", PyFloat (fl 1 1000));
         ("zmin", PyFloat (fl (-3) 1)); ("beta", PyFloat (fl 5 10))],
        [InvalidParameter "zmax"; InvalidParameter "alpha";
         InvalidParameter "gamma"]).
Proof. vm_compute. reflexivity. Qed.

(** C6, at the failing inputs.  [int(float("inf"))] raises
    [OverflowError], which neither [except (ValueError, TypeError)]
    catches: the validator raises instead of dropping [steps]; likewise
    for an integer too large for a float.  (On the mapping of the
    specification's example the validator returns the empty mapping and
    three warnings.) *)
Theorem validator_overflow_escapes :
  _validate_execution_params [("steps", PyStr "inf")] = Raise OverflowError /\
  _validate_execution_params [("alpha", PyInt (10 ^ 400))] = Raise OverflowError /\
  _validate_execution_params
    [("steps", PyInt 50000); ("alpha", PyStr "abc"); ("unknown_key", PyInt 5)]
  = Ok ([], [InvalidParameter "steps"; InvalidParameter "alpha";
             UnknownParameter "unknown_key"]).
Proof. repeat split; vm_compute; reflexivity. Qed.

End ValidatorFacts.

(** * The float32 values *)

Module Float32Facts.

Import SpecFloat IEEE Float32.

(** *** Comparisons *)











(** *** Broadcasting against a vector *)


(** *** The scaler *)







(** *** [GraphConv] on one node *)

(** The normalised adjacency of [[[1]]]: the self-loop gives 2, whose
    inverse square root is 0.70710677 in float32, and the two products
    round to [1 - 2^-24]. *)
Lemma normalized_adjacency_single (adj : FTensor) :
  fshape adj = [1; 1] -> felem adj [0; 0] = B32.one ->
  exists n, normalized_adjacency adj = Ok n /\ fshape n = [1; 1] /\
            felem n [0; 0] = single_node_factor.
Proof.
  intros Hs He. unfold normalized_adjacency, broadcast2. rewrite Hs.
  cbn. eexists. split; [reflexivity|]. split; [reflexivity|].
  cbn. rewrite He. vm_compute. reflexivity.
Qed.

Lemma GraphConv_single_elem (x adj : FTensor) (B C T : nat) :
  fshape adj = [1; 1] -> felem adj [0; 0] = B32.one ->
  fshape x = [B; C; T; 1] ->
  exists y, GraphConv x adj = Ok y /\ fshape y = [B; C; T; 1] /\
    forall b c t,
      felem y [b; c; t; 0] = B32.mul (felem x [b; c; t; 0]) single_node_factor.
Proof.
  intros Hs He Hx. unfold GraphConv.
  destruct (normalized_adjacency_single adj Hs He) as (n & -> & Hn & En).
  cbn [bind]. unfold einsum_bctv_vw. rewrite Hx, Hn. cbn [Nat.eqb orb].
  eexists. split; [reflexivity|]. split; [reflexivity|].
  intros b c t. cbn. now rewrite En.
Qed.

(** C8, as amended.  With the single-node adjacency matrix [[[1]]],
    [GraphConv] returns an array of the shape of its input in which
    every element is the input element multiplied, in float32, by
    [1 - 2^-24]: the degree after the self-loop is 2, its inverse square
    root is 0.70710677 in float32 and the normalised adjacency is
    [[[0.99999994]]], not [[[1]]]. *)
Theorem GraphConv_single_node (x adj : FTensor) (B C T : nat) :
  fshape adj = [1; 1] -> felem adj [0; 0] = B32.one ->
  fshape x = [B; C; T; 1] ->
  exists y, GraphConv x adj = Ok y /\ fshape y = fshape x /\
    (forall idx, in_range (fshape x) idx ->
       felem y idx = B32.mul (felem x idx) single_node_factor) /\
    value single_node_factor = Some (QArith_base.Qmake 16777215 16777216).
Proof.
  intros Hs He Hx.
  destruct (GraphConv_single_elem x adj B C T Hs He Hx) as (y & Hy & Hsy & E).
  exists y. split; [exact Hy|]. split; [congruence|]. split; [|reflexivity].
  rewrite Hx. intros idx Hidx.
  inversion Hidx as [|b ? ? ? _ H1]; subst.
  inversion H1 as [|c ? ? ? _ H2]; subst.
  inversion H2 as [|t ? ? ? _ H3]; subst.
  inversion H3 as [|w ? ? ? Hw H4]; subst.
  inversion H4; subst.
  assert (w = 0) as -> by lia.
  apply E.
Qed.

Lemma GraphConv_single_node_witness :
  exists y, GraphConv unit_features single_adj = Ok y /\
            fshape y = [1; 2; 2; 1].
Proof.
  destruct (GraphConv_single_node unit_features single_adj 1 2 2
              eq_refl eq_refl eq_refl) as (y & Hy & Hs & _).
  exists y. split; [exact Hy|exact Hs].
Defined.

(** C8, counterexample.  On features that are all 1 the result holds
    0.99999994, which is not 1. *)
Lemma GraphConv_single_node_counterexample :
  exists y, GraphConv unit_features single_adj = Ok y /\
    felem y [0; 0; 0; 0] = single_node_factor /\
    eqb (felem y [0; 0; 0; 0]) (felem unit_features [0; 0; 0; 0]) = false.
Proof.
  destruct (GraphConv_single_elem unit_features single_adj 1 2 2
              eq_refl eq_refl eq_refl) as (y & Hy & _ & E).
  exists y. split; [exact Hy|]. rewrite E.
  split; vm_compute; reflexivity.
Qed.

(** *** The clamp in the loop *)











End Float32Facts.

(** * Further properties *)

(** ** Arrays and endpoints *)


(** X6.  What [ensure_batched] returns has three axes, the requested
    last extent and the elements of its argument, and [ensure_batched]
    returns it unchanged when applied again. *)
Theorem ensure_batched_idempotent (arr y : Tensor) (last_dim : nat) :
  ensure_batched arr last_dim = Ok y ->
  ndim y = 3 /\ nth 2 (shape y) 0 = last_dim /\
  numel (shape y) = numel (shape arr) /\
  ensure_batched y last_dim = Ok y.
Proof.
  intros H.
  destruct (ensure_batched_cases arr last_dim)
    as [(H2 & E & Hr)|[(H3 & E & Hr)|(_ & Hr)]]; rewrite Hr in H;
    try discriminate; injection H as <-.
  - unfold ndim in *. cbn [expand_front shape length nth].
    split; [lia|]. split; [exact E|]. split; [cbn; fold (numel (shape arr)); lia|].
    unfold ensure_batched, ndim. cbn [expand_front shape length nth].
    rewrite H2, E. cbn [Nat.eqb andb]. rewrite Nat.eqb_refl. reflexivity.
  - repeat split; try assumption.
Qed.

Lemma ensure_batched_idempotent_witness :
  exists y, ensure_batched sample_baseline 8 = Ok y /\ ensure_batched y 8 = Ok y.
Proof.
  destruct (ensure_batched_to sample_baseline 1 2 8 (or_intror (conj eq_refl eq_refl)))
    as (y & Hy & _).
  exists y. split; [exact Hy|].
  exact (proj2 (proj2 (proj2 (ensure_batched_idempotent sample_baseline y 8 Hy)))).
Defined.

(** X7.  [flat8_to_stgcn_x] loses nothing: channel [c] of the input
    is found at feature [c mod 3] of node [c / 3], the one remaining
    slot (feature 2 of node 2) is 0, and two inputs of the same shape
    with the same image are equal. *)
Theorem flat8_to_stgcn_x_recoverable (p x4 : Tensor) (B T : nat) :
  shape p = [B; 8; T] ->
  flat8_to_stgcn_x p = Ok x4 ->
  (forall b c t, c < 8 -> elem p [b; c; t] = elem x4 [b; c mod 3; t; c / 3]) /\
  (forall b t, elem x4 [b; 2; t; 2] = 0%R) /\
  (forall q y4, shape q = [B; 8; T] -> flat8_to_stgcn_x q = Ok y4 ->
                same_tensor x4 y4 -> same_tensor p q).
Proof.
  intros Hp Hx.
  assert (Hrec : forall p x4, shape p = [B; 8; T] -> flat8_to_stgcn_x p = Ok x4 ->
            shape x4 = [B; 3; T; 3] /\
            forall b c t, c < 8 -> elem p [b; c; t] = elem x4 [b; c mod 3; t; c / 3]).
  { clear. intros p x4 Hp Hx.
    destruct (flat8_ok p B T Hp) as (x & Hx' & Hs & E).
    rewrite Hx in Hx'. injection Hx' as <-. split; [exact Hs|].
    intros b c t Hc.
    destruct c as [|[|[|[|[|[|[|[|c]]]]]]]]; try lia.
    - exact (eq_sym (proj1 (E b 0 t))).
    - exact (eq_sym (proj1 (E b 1 t))).
    - exact (eq_sym (proj1 (E b 2 t))).
    - exact (eq_sym (proj1 (proj2 (E b 0 t)))).
    - exact (eq_sym (proj1 (proj2 (E b 1 t)))).
    - exact (eq_sym (proj1 (proj2 (E b 2 t)))).
    - exact (eq_sym (proj2 (proj2 (E b 0 t)))).
    - exact (eq_sym (proj2 (proj2 (E b 1 t)))). }
  destruct (Hrec p x4 Hp Hx) as (Hs & Ep).
  split; [exact Ep|]. split.
  - intros b t. destruct (flat8_ok p B T Hp) as (x & Hx' & _ & E).
    rewrite Hx in Hx'. injection Hx' as <-.
    exact (proj2 (proj2 (E b 2 t))).
  - intros q y4 Hq Hy (_ & Hsame).
    destruct (Hrec q y4 Hq Hy) as (_ & Eq).
    split; [congruence|]. intros idx Hidx. rewrite Hp in Hidx.
    inversion Hidx as [|b ? ? ? Hb H1]; subst.
    inversion H1 as [|c ? ? ? Hc H2]; subst.
    inversion H2 as [|t ? ? ? Ht H3]; subst.
    inversion H3; subst.
    rewrite (Ep b c t Hc), (Eq b c t Hc). apply Hsame. rewrite Hs.
    assert (Hm : c mod 3 < 3 /\ c / 3 < 3)
      by (destruct c as [|[|[|[|[|[|[|[|c]]]]]]]]; cbn; lia).
    destruct Hm as (Hm & Hd).
    apply Forall2_cons; [exact Hb|]. apply Forall2_cons; [exact Hm|].
    apply Forall2_cons; [exact Ht|]. apply Forall2_cons; [exact Hd|].
    constructor.
Qed.

Lemma flat8_to_stgcn_x_recoverable_witness :
  exists x4, flat8_to_stgcn_x sample_params = Ok x4 /\
             forall b t, elem x4 [b; 2; t; 2] = 0%R.
Proof.
  destruct (flat8_ok sample_params 1 2 eq_refl) as (x4 & H & _).
  exists x4. split; [exact H|].
  exact (proj1 (proj2 (flat8_to_stgcn_x_recoverable sample_params x4 1 2 eq_refl H))).
Defined.

(** X10.  [/predict_kpi] serves every request of [[B, T, 8]] or [[T, 8]]
    parameters with [T >= 1] and no channel reordering, and answers with
    [[B, T, 3]] KPIs ([B = 1] for an unbatched request), raw or
    normalised. *)
Theorem predict_kpi_total (env : Environ) (ck : Checkpoint) (sc : Scaler)
  (req : PredictKPIRequest) (B T : nat) :
  deployed env -> 1 <= T ->
  shape (params req) = [B; T; 8] \/ (B = 1 /\ shape (params req) = [T; 8]) ->
  param_indices req = None ->
  stat_for 8 (scaler_x sc) -> stat_for 3 (scaler_y sc) ->
  exists kpi, predict_kpi (load_artifacts env ck sc) req = Ok kpi /\
              shape kpi = [B; T; 3].
Proof.
  intros Hd HT Hp Hidx Hx Hy. unfold predict_kpi.
  destruct (ensure_batched_to _ B T 8 Hp) as (arr & -> & Hs). cbn [bind].
  rewrite Hidx. cbn [apply_indices bind].
  destruct (normalise_to arr (scaler_x sc) [B; T] (shape arr) 8)
    as (xz & Hn & Hxz); try assumption; try lia.
  { rewrite Hs. cbn. lia. }
  change (scaler_x (SCALER (load_artifacts env ck sc))) with (scaler_x sc).
  rewrite Hn. cbn [bind]. unfold transpose021 at 1. rewrite Hxz, Hs. cbn [bind].
  match goal with
  | |- context [predict _ ?p] =>
      destruct (predict_shape env ck sc p B T Hd HT eq_refl) as (pred & -> & Hpred)
  end.
  cbn [bind]. unfold squeeze_last, transpose021. rewrite Hpred.
  cbn [rev app shape bind].
  destruct (predict_return_raw req).
  - match goal with
    | |- context [denormalise ?a _ _ _] =>
        destruct (denormalise_to a (scaler_y sc) [B; T] [B; T; 3] 3)
          as (y & Hdn & Hsy); try assumption; try reflexivity; try lia
    end.
    { cbn. lia. }
    change (scaler_y (SCALER (load_artifacts env ck sc))) with (scaler_y sc).
    rewrite Hdn. eauto.
  - eexists. split; reflexivity.
Qed.

Lemma predict_kpi_total_witness :
  exists kpi, predict_kpi sample_artifacts sample_predict_request = Ok kpi /\
              shape kpi = [1; 2; 3].
Proof.
  apply (predict_kpi_total empty_env sample_checkpoint sample_scaler
           sample_predict_request 1 2 deployed_empty_env).
  - lia.
  - right. split; reflexivity.
  - reflexivity.
  - split; reflexivity.
  - split; reflexivity.
Defined.








Lemma norm_index_spec (c : nat) (i : Z) :
  (valid_index c i /\ norm_index c i = Some (wrap_index c i) /\ wrap_index c i < c) \/
  (~ valid_index c i /\ norm_index c i = None).
Proof.
  unfold norm_index, valid_index, wrap_index.
  destruct (Z.leb_spec 0 i); destruct (Z.ltb_spec i (Z.of_nat c)); cbn [andb].
  - left. destruct (Z.ltb_spec i 0); [lia|]. repeat split; lia.
  - destruct (Z.ltb_spec i 0); [lia|]. cbn [andb]. right. split; [lia|reflexivity].
  - destruct (Z.ltb_spec i 0); [|lia].
    destruct (Z.leb_spec (- Z.of_nat c) i); cbn [andb].
    + left. repeat split; lia.
    + right. split; [lia|reflexivity].
  - lia.
Qed.

Lemma norm_indices_spec (c : nat) (l : list Z) :
  (Forall (valid_index c) l /\
   norm_indices c l = Some (map (wrap_index c) l)) \/
  (Exists (fun i => ~ valid_index c i) l /\ norm_indices c l = None).
Proof.
  induction l as [|i l IH]; cbn [norm_indices map].
  - left. split; [constructor|reflexivity].
  - destruct (norm_index_spec c i) as [(Hv & -> & _)|(Hn & ->)].
    + destruct IH as [(Hall & ->)|(Hex & ->)].
      * left. split; [constructor; assumption|reflexivity].
      * right. split; [now apply Exists_cons_tl|reflexivity].
    + right. split; [now apply Exists_cons_hd|reflexivity].
Qed.

Lemma wrap_index_lt (c : nat) (i : Z) : valid_index c i -> wrap_index c i < c.
Proof.
  intros Hv. destruct (norm_index_spec c i) as [(_ & _ & H)|(Hn & _)];
    [exact H|contradiction].
Qed.

Lemma int64_all (l : list Z) :
  (forallb int64 l = true /\ Forall (fun i => int64 i = true) l) \/
  (forallb int64 l = false /\ Exists (fun i => int64 i = false) l).
Proof.
  induction l as [|i l IH]; cbn [forallb].
  - left. split; [reflexivity|constructor].
  - destruct (int64 i) eqn:Hi; cbn [andb].
    + destruct IH as [(-> & Hall)|(-> & Hex)].
      * left. split; [reflexivity|now constructor].
      * right. split; [reflexivity|now apply Exists_cons_tl].
    + right. split; [reflexivity|now apply Exists_cons_hd].
Qed.

(** X14.  [apply_indices] with a list of indices raises
    [OverflowError] exactly when an index does not fit an [int64];
    it raises [IndexError] exactly when all fit and one of them is
    outside [[-C, C)], [C] the extent of the last axis; otherwise the
    result has one column per index, column [k] being column [l[k]] of
    the array (counted from the end when negative); with the indices
    [0, ..., C - 1] the array is returned unchanged. *)
Theorem apply_indices_semantics (arr : Tensor) (pre : list nat) (C : nat)
  (l : list Z) :
  shape arr = pre ++ [C] ->
  (apply_indices arr (Some l) = Raise OverflowError <->
   Exists (fun i => int64 i = false) l) /\
  (apply_indices arr (Some l) = Raise IndexError <->
   Forall (fun i => int64 i = true) l /\ Exists (fun i => ~ valid_index C i) l) /\
  (Forall (fun i => int64 i = true) l -> Forall (valid_index C) l ->
   exists y, apply_indices arr (Some l) = Ok y /\
     shape y = pre ++ [length l] /\
     forall ipre k, k < length l ->
       elem y (ipre ++ [k]) = elem arr (ipre ++ [wrap_index C (nth k l 0%Z)])) /\
  ((Z.of_nat C <= 2 ^ 63)%Z -> l = map Z.of_nat (seq 0 C) ->
   exists y, apply_indices arr (Some l) = Ok y /\ same_tensor y arr).
Proof.
  intros Harr.
  assert (Hno : forall i, In i l -> Forall (fun i => int64 i = true) l ->
                          int64 i = false -> False).
  { intros i Hi Hall Hf. rewrite Forall_forall in Hall.
    rewrite (Hall i Hi) in Hf. discriminate. }
  assert (Hok : Forall (fun i => int64 i = true) l -> Forall (valid_index C) l ->
    exists y, apply_indices arr (Some l) = Ok y /\
      shape y = pre ++ [length l] /\
      forall ipre k, k < length l ->
        elem y (ipre ++ [k]) = elem arr (ipre ++ [wrap_index C (nth k l 0%Z)])).
  { intros H64 Hall. unfold apply_indices.
    destruct (int64_all l) as [(-> & _)|(_ & Hex)].
    2:{ exfalso. apply Exists_exists in Hex. destruct Hex as (i & Hi & Hf).
        exact (Hno i Hi H64 Hf). }
    cbn [negb]. rewrite Harr, rev_app_distr. cbn [rev app].
    destruct (norm_indices_spec C l) as [(_ & ->)|(Hex & _)].
    - eexists. split; [reflexivity|]. cbn [shape]. rewrite rev_involutive, length_map.
      split; [reflexivity|].
      intros ipre k Hk. cbn [elem]. rewrite removelast_last, last_last.
      rewrite (nth_indep _ 0 (wrap_index C 0%Z)) by now rewrite length_map.
      rewrite map_nth. reflexivity.
    - exfalso. apply Exists_exists in Hex. destruct Hex as (i & Hi & Hn).
      rewrite Forall_forall in Hall. exact (Hn (Hall i Hi)). }
  split; [|split; [|split]].
  - unfold apply_indices.
    destruct (int64_all l) as [(-> & Hall)|(-> & Hex)]; cbn [negb].
    + split.
      * rewrite Harr, rev_app_distr. cbn [rev app].
        destruct (norm_indices C l); discriminate.
      * intros Hex. exfalso. apply Exists_exists in Hex.
        destruct Hex as (i & Hi & Hf). exact (Hno i Hi Hall Hf).
    + split; [intros _; exact Hex|reflexivity].
  - unfold apply_indices.
    destruct (int64_all l) as [(-> & H64)|(-> & Hex)]; cbn [negb].
    + rewrite Harr, rev_app_distr. cbn [rev app].
      destruct (norm_indices_spec C l) as [(Hall & ->)|(Hex & ->)].
      * split; [discriminate|]. intros (_ & Hex). exfalso.
        apply Exists_exists in Hex. destruct Hex as (i & Hi & Hn).
        rewrite Forall_forall in Hall. exact (Hn (Hall i Hi)).
      * split; [intros _; split; assumption|reflexivity].
    + split; [discriminate|]. intros (H64 & _). exfalso.
      apply Exists_exists in Hex. destruct Hex as (i & Hi & Hf).
      exact (Hno i Hi H64 Hf).
  - exact Hok.
  - intros HC ->.
    assert (Hall : Forall (valid_index C) (map Z.of_nat (seq 0 C))).
    { apply Forall_forall. intros i Hi. apply in_map_iff in Hi.
      destruct Hi as (k & <- & Hk). apply in_seq in Hk.
      unfold valid_index. lia. }
    assert (H64 : Forall (fun i => int64 i = true) (map Z.of_nat (seq 0 C))).
    { apply Forall_forall. intros i Hi. apply in_map_iff in Hi.
      destruct Hi as (k & <- & Hk). apply in_seq in Hk.
      unfold int64. apply andb_true_intro. split.
      - apply Z.leb_le. assert (0 < 2 ^ 63)%Z by (apply Z.pow_pos_nonneg; lia). lia.
      - apply Z.ltb_lt. lia. }
    destruct (Hok H64 Hall) as (y & Hy & Hs & E).
    exists y. split; [exact Hy|]. rewrite length_map, length_seq in Hs, E.
    split; [congruence|].
    intros idx Hidx. rewrite Hs in Hidx.
    destruct (in_range_snoc _ _ _ Hidx) as (ipre & k & -> & _ & Hk).
    rewrite (E ipre k Hk).
    rewrite (nth_indep _ 0%Z (Z.of_nat 0)) by now rewrite length_map, length_seq.
    rewrite map_nth, seq_nth by exact Hk.
    replace (wrap_index C (Z.of_nat (0 + k))) with k; [reflexivity|].
    unfold wrap_index. destruct (Z.ltb_spec (Z.of_nat (0 + k)) 0); lia.
Qed.

Lemma apply_indices_semantics_witness :
  exists y, apply_indices sample_baseline (Some [(-1)%Z; 0%Z]) = Ok y /\
            shape y = [2; 2].
Proof.
  destruct (proj1 (proj2 (proj2 (apply_indices_semantics sample_baseline [2] 8
                                   [(-1)%Z; 0%Z] eq_refl))))
    as (y & H & Hs & _).
  - repeat constructor.
  - repeat constructor; unfold valid_index; cbn; lia.
  - exists y. split; [exact H|exact Hs].
Defined.

(** ** The validator and the command line *)

Module RunnerFacts.

Import Validator Runner ValidatorFacts.
Import String.
Local Open Scope string_scope.

Lemma dict_set_fresh (d : dict) (k : string) (v : pyval) :
  ~ In k (map fst d) -> dict_set d k v = (d ++ [(k, v)])%list.
Proof.
  induction d as [|(k0, v0) d IH]; cbn [dict_set map fst In app]; intros Hn.
  - reflexivity.
  - destruct (String.eqb_spec k0 k) as [->|_]; [tauto|].
    rewrite IH by tauto. reflexivity.
Qed.

Lemma validate_items_filtered (items acc : dict) (out : list diagnostic) :
  NoDup (map fst acc ++ map fst items) ->
  Forall (fun item => ~ overflowing item) items ->
  validate_items items acc out
  = Ok ((acc ++ flat_map kept items)%list, (out ++ flat_map warned items)%list).
Proof.
  revert acc out. induction items as [|(param, value) rest IH]; intros acc out Hnd Hov.
  - cbn. now rewrite !app_nil_r.
  - inversion Hov as [|? ? Hhd Htl]; subst.
    cbn [validate_items flat_map]. unfold kept at 1, warned at 1, accepts.
    unfold overflowing in Hhd. cbn [fst snd] in *.
    assert (Hnd' : NoDup (map fst acc ++ map fst rest))
      by (exact (NoDup_remove_1 _ _ _ Hnd)).
    destruct (param_validators param) as [validator|] eqn:Hv.
    + destruct (validator value) as [v|e] eqn:He.
      * rewrite dict_set_fresh.
        -- rewrite IH; [now rewrite <- !app_assoc|
                        rewrite map_app, <- app_assoc; exact Hnd|exact Htl].
        -- intros Hin. apply NoDup_remove_2 in Hnd. apply Hnd, in_or_app. now left.
      * destruct (param_validators_exn param validator value e Hv He) as [->| ->];
          [|contradiction].
        rewrite IH by assumption. cbn [app]. now rewrite <- app_assoc.
    + rewrite IH by assumption. cbn [app]. now rewrite <- app_assoc.
Qed.

Lemma validate_items_raises_iff (items acc : dict) (out : list diagnostic) :
  validate_items items acc out = Raise OverflowError <-> Exists overflowing items.
Proof.
  revert acc out. induction items as [|(param, value) rest IH]; intros acc out.
  - cbn. split; [discriminate|intros H; inversion H].
  - cbn [validate_items].
    assert (Hrest : forall a o,
              validate_items rest a o = Raise OverflowError ->
              Exists overflowing ((param, value) :: rest))
      by (intros a o H; apply Exists_cons_tl, (IH a o), H).
    destruct (param_validators param) as [validator|] eqn:Hv.
    + destruct (validator value) as [v|e] eqn:He.
      * split; [apply Hrest|]. intros Hex. apply IH.
        inversion Hex as [? ? Hhd|? ? Htl]; subst; [|exact Htl].
        unfold overflowing in Hhd. cbn [fst snd] in Hhd. rewrite Hv in Hhd. congruence.
      * destruct (param_validators_exn param validator value e Hv He) as [->| ->].
        -- split; [apply Hrest|]. intros Hex. apply IH.
           inversion Hex as [? ? Hhd|? ? Htl]; subst; [|exact Htl].
           unfold overflowing in Hhd. cbn [fst snd] in Hhd. rewrite Hv in Hhd.
           congruence.
        -- split; [|reflexivity]. intros _. apply Exists_cons_hd.
           unfold overflowing. cbn [fst snd]. now rewrite Hv.
    + split; [apply Hrest|]. intros Hex. apply IH.
      inversion Hex as [? ? Hhd|? ? Htl]; subst; [|exact Htl].
      unfold overflowing in Hhd. cbn [fst snd] in Hhd. now rewrite Hv in Hhd.
Qed.

Lemma sample_execution_config_validated :
  _validate_execution_params sample_execution_config
  = Ok ([("lr", PyFloat (fl 5 10))],
        [InvalidParameter "steps"; InvalidParameter "alpha"]).
Proof. vm_compute. reflexivity. Qed.

(** X16.  When [_validate_execution_params] returns, on a
    configuration of distinct keys, it returns the entries of the
    configuration that their validators accept, in the order of the
    configuration and with the validated values, and it has printed one
    warning for every other entry, in that order too: invalid for a
    recognised key, unknown for any other. *)
Theorem validator_result_filtered (execution_config safe : dict)
  (out : list diagnostic) :
  NoDup (map fst execution_config) ->
  _validate_execution_params execution_config = Ok (safe, out) ->
  safe = flat_map kept execution_config /\
  out = flat_map warned execution_config.
Proof.
  intros Hnd H. unfold _validate_execution_params in H.
  assert (Hov : Forall (fun item => ~ overflowing item) execution_config).
  { apply Forall_Exists_neg. intros Hex.
    apply (validate_items_raises_iff execution_config [] []) in Hex.
    rewrite Hex in H. discriminate. }
  rewrite (validate_items_filtered execution_config [] [] Hnd Hov) in H.
  injection H as <- <-. split; reflexivity.
Qed.

Lemma validator_result_filtered_witness :
  [("lr", PyFloat (fl 5 10))] = flat_map kept sample_execution_config /\
  [InvalidParameter "steps"; InvalidParameter "alpha"]
  = flat_map warned sample_execution_config.
Proof.
  apply (validator_result_filtered sample_execution_config).
  - cbn. repeat constructor; cbn; intuition discriminate.
  - exact sample_execution_config_validated.
Defined.

Lemma recognised_iff (param : string) :
  In param recognised <-> param_validators param <> None.
Proof.
  unfold recognised, param_validators. cbn [In].
  repeat match goal with
         | |- context [String.eqb param ?k] =>
             destruct (String.eqb_spec param k) as [->|?]
         end;
    split; intros H; try discriminate; try tauto; try (now auto 10);
    intuition congruence.
Qed.

(** An entry the validator can have produced. *)
Lemma dict_set_keys (d : dict) (k k' : string) (v : pyval) :
  In k' (map fst (dict_set d k v)) <-> k' = k \/ In k' (map fst d).
Proof.
  induction d as [|(k0, v0) d IH]; cbn [dict_set map fst In].
  - intuition.
  - destruct (String.eqb_spec k0 k) as [->|Hne]; cbn [map fst In].
    + intuition.
    + rewrite IH. intuition.
Qed.

Lemma dict_set_NoDup (d : dict) (k : string) (v : pyval) :
  NoDup (map fst d) -> NoDup (map fst (dict_set d k v)).
Proof.
  induction d as [|(k0, v0) d IH]; cbn [dict_set map fst]; intros Hnd.
  - repeat constructor. intros [].
  - inversion Hnd as [|? ? Hnotin Hnd']; subst.
    destruct (String.eqb_spec k0 k) as [->|Hne]; cbn [map fst].
    + constructor; assumption.
    + constructor; [|apply IH, Hnd'].
      rewrite dict_set_keys. intros [->|Hin]; [congruence|contradiction].
Qed.

Lemma dict_set_In (d : dict) (k k' : string) (v v' : pyval) :
  In (k', v') (dict_set d k v) -> (k', v') = (k, v) \/ In (k', v') d.
Proof.
  induction d as [|(k0, v0) d IH]; cbn [dict_set In].
  - intuition.
  - destruct (String.eqb_spec k0 k) as [->|Hne]; cbn [In].
    + intros [H|H]; [left; congruence|right; right; exact H].
    + intros [H|H]; [right; left; exact H|].
      destruct (IH H) as [H'|H']; [left; exact H'|right; right; exact H'].
Qed.

Lemma validate_items_invariant (items acc : dict) (out : list diagnostic)
  (safe : dict) (out' : list diagnostic) (P : string -> pyval -> Prop) :
  (forall k raw v, In (k, raw) items -> accepts k raw = Some v -> P k v) ->
  validate_items items acc out = Ok (safe, out') ->
  NoDup (map fst acc) -> (forall k v, In (k, v) acc -> P k v) ->
  NoDup (map fst safe) /\ (forall k v, In (k, v) safe -> P k v).
Proof.
  revert acc out. induction items as [|(param, value) rest IH];
    intros acc out HP H Hnd Hacc.
  - cbn in H. injection H as <- <-. auto.
  - cbn [validate_items] in H.
    assert (HP' : forall k raw v, In (k, raw) rest -> accepts k raw = Some v -> P k v)
      by (intros k raw v Hin; apply HP; now right).
    destruct (param_validators param) as [validator|] eqn:Hv.
    + destruct (validator value) as [v|e] eqn:He.
      * apply (IH _ _ HP' H); [apply dict_set_NoDup, Hnd|].
        intros k v' Hin. destruct (dict_set_In _ _ _ _ _ Hin) as [[= -> ->]|Hin'].
        -- apply (HP param value v); [now left|].
           unfold accepts. now rewrite Hv, He.
        -- apply Hacc, Hin'.
      * destruct e; try discriminate; apply (IH _ _ HP' H); assumption.
    + apply (IH _ _ HP' H); assumption.
Qed.

Lemma big_bound : (10000 < 2 ^ 1024 - 2 ^ 970)%Z.
Proof. vm_compute. reflexivity. Qed.

Lemma py_float_small_int (i : Z) :
  (1 <= i <= 10000)%Z -> py_float (PyInt i) = Ok (Finite (QArith_base.inject_Z i)).
Proof.
  intros Hi. cbn [py_float]. unfold dbl_overflow.
  destruct (QArith_base.Qle_bool _ _) eqn:H; [|reflexivity].
  exfalso. unfold QArith_base.Qle_bool in H. cbn in H.
  apply Z.leb_le in H. pose proof big_bound as Hb.
  change (Z.pow_pos 2 1024 - Z.pow_pos 2 970)%Z with (2 ^ 1024 - 2 ^ 970)%Z in H.
  lia.
Qed.

Lemma validator_fixpoint (param : string) (validator : pyval -> result pyval)
  (raw v : pyval) :
  param_validators param = Some validator ->
  validator raw = Ok v -> validator v = Ok v.
Proof.
  unfold param_validators. intros Hv He.
  repeat match type of Hv with
         | (if ?c then _ else _) = _ => destruct c
         end; try discriminate; injection Hv as <-;
    match type of He with
    | bind (_validate_int_range raw ?lo ?hi) _ = _ =>
        destruct (_validate_int_range raw lo hi) as [i|e1] eqn:H1; cbn [bind] in He;
        [|discriminate]; injection He as <-;
        pose proof (_validate_int_range_ok _ _ _ _ H1) as Hb;
        unfold _validate_int_range; rewrite (py_float_small_int i Hb);
        cbn [bind py_int QArith_base.inject_Z QArith_base.Qnum QArith_base.Qden];
        rewrite Z.quot_1_r;
        destruct (Z.leb_spec 1 i); [|lia]; destruct (Z.leb_spec i 10000); [|lia];
        reflexivity
    | bind (_validate_float_range raw ?lo ?hi) _ = _ =>
        destruct (_validate_float_range raw lo hi) as [f|e1] eqn:H1; cbn [bind] in He;
        [|discriminate]; injection He as <-;
        destruct (_validate_float_range_ok _ _ _ _ H1) as (Hlo & Hhi);
        unfold _validate_float_range; cbn [py_float bind];
        rewrite Hlo, Hhi; reflexivity
    end.
Qed.

Lemma flat_map_kept_self (safe : dict) :
  (forall k v, In (k, v) safe -> self_accepting k v) ->
  flat_map kept safe = safe /\ flat_map warned safe = [].
Proof.
  induction safe as [|(k, v) rest IH]; intros Hgood; [split; reflexivity|].
  destruct IH as (IH1 & IH2); [intros k' v' Hin; apply Hgood; now right|].
  destruct (Hgood k v (or_introl eq_refl)) as (validator & Hv & He).
  cbn [flat_map]. unfold kept at 1, warned at 1, accepts. cbn [fst snd].
  rewrite Hv, He, IH1, IH2. split; reflexivity.
Qed.

(** X18.  Validating the validated mapping again returns it unchanged
    and prints nothing. *)
Theorem validator_idempotent (execution_config safe : dict)
  (out : list diagnostic) :
  _validate_execution_params execution_config = Ok (safe, out) ->
  _validate_execution_params safe = Ok (safe, []).
Proof.
  intros H. unfold _validate_execution_params in H.
  destruct (validate_items_invariant execution_config [] [] safe out self_accepting)
    as (Hnd & Hgood); try assumption.
  - intros k raw v _. unfold accepts.
    destruct (param_validators k) as [validator|] eqn:Hv; [|discriminate].
    destruct (validator raw) as [v'|] eqn:He; [|discriminate].
    intros [= <-]. exists validator. split; [exact Hv|].
    exact (validator_fixpoint k validator raw v' Hv He).
  - constructor.
  - intros k v [].
  - destruct (flat_map_kept_self safe Hgood) as (E1 & E2).
    unfold _validate_execution_params.
    rewrite validate_items_filtered; [cbn [app]; now rewrite E1, E2|exact Hnd|].
    apply Forall_forall. intros (k, v) Hin. unfold overflowing. cbn [fst snd].
    destruct (Hgood k v Hin) as (validator & -> & ->). discriminate.
Qed.

Lemma float_le_finite (lo hi : QArith_base.Q) (f : pyfloat) :
  float_le (Finite lo) f = true -> float_le f (Finite hi) = true ->
  exists q, f = Finite q /\ QArith_base.Qle lo q /\ QArith_base.Qle q hi.
Proof.
  destruct f as [q| | |]; cbn; try discriminate.
  intros H1 H2. exists q. split; [reflexivity|].
  split; now apply QArith_base.Qle_bool_iff.
Qed.

Lemma float_bounds_finite (k : string) (lo hi : pyfloat) :
  float_bounds k = Some (lo, hi) -> exists l h, lo = Finite l /\ hi = Finite h.
Proof.
  unfold float_bounds, fl.
  repeat match goal with
         | |- context [if ?c then _ else _] => destruct c
         end; try discriminate; intros [= <- <-]; eauto.
Qed.

Lemma validated_entries (execution_config safe : dict)
  (out : list diagnostic) :
  _validate_execution_params execution_config = Ok (safe, out) ->
  NoDup (map fst safe) /\
  forall k v, In (k, v) safe ->
    In k recognised /\ In k (map fst execution_config) /\
    within_documented_bounds k v.
Proof.
  intros H. unfold _validate_execution_params in H.
  apply (validate_items_invariant execution_config [] [] safe out
           (fun k v => In k recognised /\ In k (map fst execution_config) /\
                       within_documented_bounds k v)); try assumption.
  - intros k raw v Hin Hacc. split; [|split].
    + apply recognised_iff. unfold accepts in Hacc.
      destruct (param_validators k); [discriminate|discriminate Hacc].
    + apply in_map_iff. exists (k, raw). auto.
    + destruct (accepts_bounds k raw v Hacc)
        as [(-> & i & -> & Hi)|(f & lo & hi & Hb & -> & Hlo & Hhi)].
      * left. eauto.
      * right. destruct (float_bounds_finite k lo hi Hb) as (l & h & -> & ->).
        destruct (float_le_finite l h f Hlo Hhi) as (q & -> & Hq1 & Hq2).
        exists l, h, q. auto.
  - constructor.
  - intros k v [].
Qed.

(** X19.  Every entry of the mapping [_validate_execution_params]
    returns has one of the seven recognised keys, which was a key of the
    configuration, and a value of the type and within the bounds of that
    key: an integer in [[1, 10000]] for [steps], a finite float within
    the bounds of the key otherwise; no key occurs twice. *)
Theorem validator_output_within_bounds (execution_config safe : dict)
  (out : list diagnostic) :
  _validate_execution_params execution_config = Ok (safe, out) ->
  NoDup (map fst safe) /\
  forall k v, In (k, v) safe ->
    In k recognised /\ In k (map fst execution_config) /\
    within_documented_bounds k v.
Proof. exact (validated_entries execution_config safe out). Qed.


Lemma validator_idempotent_witness :
  _validate_execution_params [("lr", PyFloat (fl 5 10))]
  = Ok ([("lr", PyFloat (fl 5 10))], []).
Proof.
  exact (validator_idempotent sample_execution_config _ _
           sample_execution_config_validated).
Defined.

Lemma validator_output_within_bounds_witness :
  within_documented_bounds "lr" (PyFloat (fl 5 10)).
Proof.
  destruct (validator_output_within_bounds sample_execution_config _ _
              sample_execution_config_validated) as (_ & Hall).
  exact (proj2 (proj2 (Hall "lr" _ (or_introl eq_refl)))).
Defined.



End RunnerFacts.

(** ** Loading a checkpoint *)

Module CheckpointFacts.

Import Checkpoints.
Import String.
Local Open Scope string_scope.

Lemma prefix_cons (a : Ascii.ascii) (p s : string) :
  prefix (String a p) s = true ->
  exists s', s = String a s' /\ prefix p s' = true.
Proof.
  destruct s as [|b s']; cbn; [discriminate|].
  destruct (Ascii.ascii_dec a b) as [->|]; [|discriminate].
  intros H. now exists s'.
Qed.

Lemma prefix_cons_neq (a b : Ascii.ascii) (p s : string) :
  a <> b -> prefix (String a p) (String b s) = false.
Proof.
  intros Hne. cbn. destruct (Ascii.ascii_dec a b); [contradiction|reflexivity].
Qed.

(** Removing ["module."] leaves a leading ["stgcn."] in place. *)
Lemma str_remove_keeps_stgcn (k : string) :
  prefix "stgcn." k = true -> prefix "stgcn." (str_remove "module." k) = true.
Proof.
  intros H.
  apply prefix_cons in H as (k1 & -> & H).
  apply prefix_cons in H as (k2 & -> & H).
  apply prefix_cons in H as (k3 & -> & H).
  apply prefix_cons in H as (k4 & -> & H).
  apply prefix_cons in H as (k5 & -> & H).
  apply prefix_cons in H as (k6 & -> & _).
  unfold str_remove.
  repeat (cbn [remove_from]; rewrite prefix_cons_neq by discriminate).
  cbn. repeat (destruct (Ascii.ascii_dec _ _); [|congruence]).
  destruct (remove_from _ _ _); reflexivity.
Qed.

Lemma sd_get_set (sd : StateDict) (k k' : string) (v : Tensor) :
  sd_get (sd_set sd k v) k' = if (k =? k') then Some v else sd_get sd k'.
Proof.
  induction sd as [|(k0, v0) sd IH]; cbn [sd_set sd_get].
  - reflexivity.
  - destruct (String.eqb_spec k0 k) as [->|Hne]; cbn [sd_get].
    + destruct (String.eqb_spec k k'); reflexivity.
    + rewrite IH. destruct (String.eqb_spec k0 k') as [->|]; [|reflexivity].
      destruct (String.eqb_spec k k'); [congruence|reflexivity].
Qed.

(** Every key of the comprehension is a renamed key of the prefix. *)
Lemma comprehension_keys (p : string) (rename : string -> string)
  (sd : StateDict) (name : string) (v : Tensor) :
  sd_get (comprehension p rename sd) name = Some v ->
  exists k, In k (map fst sd) /\ prefix p k = true /\ rename k = name.
Proof.
  unfold comprehension.
  assert (G : forall acc,
             sd_get (fold_left
               (fun acc kv => if prefix p (fst kv)
                              then sd_set acc (rename (fst kv)) (snd kv) else acc)
               sd acc) name = Some v ->
             sd_get acc name = Some v \/
             exists k, In k (map fst sd) /\ prefix p k = true /\ rename k = name).
  { induction sd as [|(k0, v0) sd IH]; intros acc; cbn [fold_left fst snd map].
    - auto.
    - intros H. apply IH in H as [H|(k & Hin & Hp & Hr)].
      + destruct (prefix p k0) eqn:Hp; [|auto].
        rewrite sd_get_set in H.
        destruct (String.eqb_spec (rename k0) name) as [Hr|_]; [|auto].
        right. exists k0. cbn. auto.
      + right. exists k. cbn. auto. }
  intros H. apply G in H as [H|H]; [discriminate|exact H].
Qed.

Lemma copy_params_untouched (module : ModuleParams) (sd : StateDict) :
  (forall name, In name (map fst module) -> sd_get sd name = None) ->
  copy_params module sd = Ok (module, map fst module).
Proof.
  induction module as [|(name, cur) rest IH]; intros H; cbn [copy_params map fst].
  - reflexivity.
  - rewrite IH by (intros n Hn; apply H; cbn; auto). cbn [bind fst snd].
    rewrite (H name) by (cbn; auto). reflexivity.
Qed.

Lemma stgcn_names_unprefixed (env : Environ) (draw : string -> list nat -> R)
  (name : string) :
  In name (map fst (stgcn_params (fresh_modules env draw))) ->
  prefix "stgcn." name = false.
Proof.
  cbn. intros H.
  repeat (destruct H as [<-|H]; [reflexivity|]). destruct H.
Qed.

Lemma load_nothing (env : Environ) (draw : string -> list nat -> R)
  (sd : StateDict) :
  load_state_dict (stgcn_params (fresh_modules env draw))
    (comprehension "stgcn." (str_remove "module.") sd) false =
  Ok (stgcn_params (fresh_modules env draw)).
Proof.
  unfold load_state_dict. rewrite copy_params_untouched; [reflexivity|].
  intros name Hin.
  destruct (sd_get _ name) as [v|] eqn:E; [|reflexivity].
  apply comprehension_keys in E as (k & _ & Hp & <-).
  apply str_remove_keeps_stgcn in Hp.
  rewrite (stgcn_names_unprefixed env draw _ Hin) in Hp. discriminate.
Qed.

(** X21.  From a checkpoint of the [state_dict] layout [load_artifacts]
    takes no parameter of the STGCN: the keys it offers to
    [load_state_dict] still begin with [stgcn.], which no parameter name
    does, and [strict=False] lets that pass, so the network keeps the
    values of its construction whatever the file holds. *)
Theorem state_dict_layout_loads_no_stgcn_parameter (env : Environ)
  (draw : string -> list nat -> R) (state : TorchFile) (sd : StateDict)
  (loaded : Modules) :
  file_stgcn state = None ->
  file_state_dict state = Some sd ->
  load_checkpoint (fresh_modules env draw) state = Ok loaded ->
  stgcn_params loaded = stgcn_params (fresh_modules env draw).
Proof.
  intros H1 H2. unfold load_checkpoint. rewrite H1, H2, load_nothing.
  cbn [bind]. destruct (existsb _ sd).
  - destruct (load_state_dict _ _ false) as [kh|e]; cbn [bind]; [|discriminate].
    intros [= <-]. reflexivity.
  - intros [= <-]. reflexivity.
Qed.

Lemma state_dict_layout_loads_no_stgcn_parameter_witness :
  load_checkpoint sample_fresh_modules sample_state_dict_file = Ok sample_loaded /\
  stgcn_params sample_loaded = stgcn_params sample_fresh_modules.
Proof.
  assert (H : load_checkpoint sample_fresh_modules sample_state_dict_file
              = Ok sample_loaded) by reflexivity.
  split; [exact H|].
  exact (state_dict_layout_loads_no_stgcn_parameter empty_env (fun _ _ => 1%R)
           sample_state_dict_file _ sample_loaded eq_refl eq_refl H).
Defined.

Lemma shape_eqb_eq (a b : list nat) : shape_eqb a b = true -> a = b.
Proof. unfold shape_eqb. destruct (list_eq_dec Nat.eq_dec a b); [auto|discriminate]. Qed.

(** What [copy_params] leaves: stored values where the name is stored,
    the name among the missing ones otherwise. *)
Lemma copy_params_spec (module : ModuleParams) (sd : StateDict)
  (m' : ModuleParams) (missing : list string) :
  copy_params module sd = Ok (m', missing) ->
  forall name cur, In (name, cur) module ->
    match sd_get sd name with
    | Some v => sd_get m' name = Some v /\ shape v = shape cur
    | None => In name missing
    end.
Proof.
  revert m' missing.
  induction module as [|(n0, c0) rest IH]; intros m' missing H name cur Hin.
  - destruct Hin.
  - cbn [copy_params] in H.
    destruct (copy_params rest sd) as [(m1, miss1)|e] eqn:E; cbn [bind fst snd] in H;
      [|discriminate].
    specialize (IH _ _ eq_refl).
    destruct (sd_get sd n0) as [v0|] eqn:E0.
    + destruct (shapes_equal v0 c0) eqn:Es; [|discriminate].
      injection H as <- <-.
      destruct Hin as [[= -> ->]|Hin].
      * rewrite E0. cbn. rewrite String.eqb_refl. split; [reflexivity|].
        now apply shape_eqb_eq.
      * specialize (IH _ _ Hin). destruct (sd_get sd name) as [v|] eqn:En; [|exact IH].
        cbn. destruct (String.eqb_spec n0 name) as [->|_]; [|exact IH].
        split; [congruence|tauto].
    + injection H as <- <-.
      destruct Hin as [[= -> ->]|Hin].
      * rewrite E0. cbn. auto.
      * specialize (IH _ _ Hin). destruct (sd_get sd name) as [v|] eqn:En.
        -- cbn. destruct (String.eqb_spec n0 name) as [->|_]; [congruence|exact IH].
        -- cbn. auto.
Qed.

Lemma load_strict (module : ModuleParams) (sd : StateDict) (m' : ModuleParams) :
  load_state_dict module sd true = Ok m' ->
  (forall name cur, In (name, cur) module ->
     exists v, sd_get sd name = Some v /\ sd_get m' name = Some v /\
               shape v = shape cur) /\
  (forall k, In k (map fst sd) -> In k (map fst module)).
Proof.
  unfold load_state_dict.
  destruct (copy_params module sd) as [(m1, missing)|e] eqn:E; cbn [bind fst snd];
    [|discriminate].
  destruct missing as [|x missing]; cbn [is_nil andb negb]; [|discriminate].
  destruct (unexpected_keys module sd) as [|y ys] eqn:Eu; cbn; [|discriminate].
  intros [= <-]. split.
  - intros name cur Hin.
    pose proof (copy_params_spec _ _ _ _ E name cur Hin) as H.
    destruct (sd_get sd name) as [v|]; [|destruct H].
    exists v. tauto.
  - intros k Hk. unfold unexpected_keys in Eu.
    destruct (existsb (String.eqb k) (map fst module)) eqn:Ex.
    + apply existsb_exists in Ex as (n & Hn & Heq).
      apply String.eqb_eq in Heq. now subst.
    + assert (Hf : In k (filter (fun k => negb (existsb (String.eqb k) (map fst module)))
                           (map fst sd))).
      { apply filter_In. rewrite Ex. auto. }
      rewrite Eu in Hf. destruct Hf.
Qed.

(** X22.  When [load_artifacts] accepts a checkpoint of the [stgcn]
    layout, every parameter of the STGCN has the value stored under its
    name, of the shape the configuration gives it, the file stores
    nothing else under [stgcn], and without a [kpi_head] entry the KPI
    head keeps the values of its construction. *)
Theorem strict_layout_takes_every_parameter (env : Environ)
  (draw : string -> list nat -> R) (state : TorchFile) (sd : StateDict)
  (loaded : Modules) :
  file_stgcn state = Some sd ->
  load_checkpoint (fresh_modules env draw) state = Ok loaded ->
  (forall name cur, In (name, cur) (stgcn_params (fresh_modules env draw)) ->
     exists v, sd_get sd name = Some v /\
               sd_get (stgcn_params loaded) name = Some v /\
               shape v = shape cur) /\
  (forall k, In k (map fst sd) ->
     In k (map fst (stgcn_params (fresh_modules env draw)))) /\
  (file_kpi_head state = None ->
     kpi_head_params loaded = kpi_head_params (fresh_modules env draw)).
Proof.
  intros H1. unfold load_checkpoint. rewrite H1.
  destruct (load_state_dict (stgcn_params _) sd true) as [st|e] eqn:E; cbn [bind];
    [|discriminate].
  destruct (load_strict _ _ _ E) as (Ha & Hb).
  destruct (file_kpi_head state) as [kh|].
  - destruct (load_state_dict _ kh true) as [k1|e]; cbn [bind]; [|discriminate].
    intros [= <-]. cbn [stgcn_params kpi_head_params].
    split; [exact Ha|]. split; [exact Hb|]. discriminate.
  - intros [= <-]. cbn [stgcn_params kpi_head_params].
    split; [exact Ha|]. split; [exact Hb|]. reflexivity.
Qed.

Lemma strict_layout_takes_every_parameter_witness :
  load_checkpoint sample_fresh_modules sample_stgcn_file = Ok sample_loaded_strict /\
  (forall name cur, In (name, cur) (stgcn_params sample_fresh_modules) ->
     exists v, sd_get sample_stgcn_sd name = Some v /\
               sd_get (stgcn_params sample_loaded_strict) name = Some v /\
               shape v = shape cur).
Proof.
  assert (H : load_checkpoint sample_fresh_modules sample_stgcn_file
              = Ok sample_loaded_strict) by reflexivity.
  split; [exact H|].
  exact (proj1 (strict_layout_takes_every_parameter empty_env (fun _ _ => 1%R)
                  sample_stgcn_file sample_stgcn_sd sample_loaded_strict eq_refl H)).
Defined.

Lemma copy_params_exn (module : ModuleParams) (sd : StateDict) (e : exn) :
  copy_params module sd = Raise e -> e = RuntimeError.
Proof.
  induction module as [|(n0, c0) rest IH]; cbn [copy_params]; [discriminate|].
  destruct (copy_params rest sd) as [r|e1]; cbn [bind].
  - destruct (sd_get sd n0); [|discriminate].
    destruct (shapes_equal _ _); [discriminate|]. now intros [= <-].
  - intros [= <-]. now apply IH.
Qed.

Lemma load_state_dict_exn (module : ModuleParams) (sd : StateDict)
  (strict : bool) (e : exn) :
  load_state_dict module sd strict = Raise e -> e = RuntimeError.
Proof.
  unfold load_state_dict.
  destruct (copy_params module sd) as [r|e1] eqn:E; cbn [bind].
  - destruct (_ && _); [|discriminate]. now intros [= <-].
  - intros [= <-]. exact (copy_params_exn _ _ _ E).
Qed.

(** X23.  A checkpoint of the [stgcn] layout that lacks a parameter of
    the STGCN, stores a key that is none, or stores a parameter with
    another shape is rejected with [RuntimeError]. *)
Theorem strict_layout_rejects_other_files (env : Environ)
  (draw : string -> list nat -> R) (state : TorchFile) (sd : StateDict) :
  file_stgcn state = Some sd ->
  (exists name, In name (map fst (stgcn_params (fresh_modules env draw))) /\
                sd_get sd name = None) \/
  (exists k, In k (map fst sd) /\
             ~ In k (map fst (stgcn_params (fresh_modules env draw)))) \/
  (exists name cur v, In (name, cur) (stgcn_params (fresh_modules env draw)) /\
                      sd_get sd name = Some v /\ shape v <> shape cur) ->
  load_checkpoint (fresh_modules env draw) state = Raise RuntimeError.
Proof.
  intros H1 Hbad. unfold load_checkpoint. rewrite H1.
  destruct (load_state_dict (stgcn_params _) sd true) as [st|e] eqn:E; cbn [bind].
  - exfalso. destruct (load_strict _ _ _ E) as (Ha & Hb).
    destruct Hbad as [(name & Hin & Hn)|[(k & Hk & Hnk)|(name & cur & v & Hin & Hv & Hs)]].
    + apply in_map_iff in Hin as ((n, cur) & <- & Hin).
      destruct (Ha _ _ Hin) as (v & Hv & _). cbn in Hn. congruence.
    + exact (Hnk (Hb _ Hk)).
    + destruct (Ha _ _ Hin) as (v' & Hv' & _ & Hs'). congruence.
  - now rewrite (load_state_dict_exn _ _ _ _ E).
Qed.

Lemma strict_layout_rejects_other_files_witness :
  load_checkpoint sample_fresh_modules empty_stgcn_file = Raise RuntimeError.
Proof.
  apply (strict_layout_rejects_other_files empty_env (fun _ _ => 1%R)
           empty_stgcn_file [] eq_refl).
  left. exists "final.bias". split; [|reflexivity].
  cbn. tauto.
Defined.

End CheckpointFacts.

(** ** Choosing the columns *)

Module CsvFacts.

Import Csv.
Import String.
Local Open Scope string_scope.

Lemma column_at_In (cols : list string) (idx : Z) (c : string) :
  column_at cols idx = Ok c -> In c cols.
Proof.
  unfold column_at. destruct (_ <? 0)%Z; [discriminate|].
  destruct (nth_error cols _) as [c'|] eqn:E; [|discriminate].
  intros [= <-]. exact (nth_error_In _ _ E).
Qed.

Lemma filter_head_In {A : Type} (f : A -> bool) (l : list A) (c : A) (t : list A) :
  filter f l = c :: t -> In c l /\ f c = true.
Proof.
  intros E. apply filter_In. rewrite E. now left.
Qed.

Lemma find_column_In (cols : list string) (it c : string) :
  find_column cols it = Ok c -> In c cols.
Proof.
  unfold find_column.
  destruct (filter (fun c => c =? it) cols) as [|c1 t1] eqn:E1.
  - destruct (filter (fun c => str_lower c =? _) cols) as [|c2 t2] eqn:E2;
      [discriminate|].
    intros [= <-]. exact (proj1 (filter_head_In _ _ _ _ E2)).
  - intros [= <-]. exact (proj1 (filter_head_In _ _ _ _ E1)).
Qed.

Lemma select_items_spec (cols items cs : list string) :
  select_items cols items = Ok cs ->
  List.length cs = List.length items /\ incl cs cols.
Proof.
  revert cs. induction items as [|it rest IH]; intros cs; cbn [select_items].
  - intros [= <-]. split; [reflexivity|]. intros c [].
  - destruct (match index_literal it with
              | Some idx => column_at cols idx
              | None => find_column cols it
              end) as [c|e] eqn:E; cbn [bind]; [|discriminate].
    destruct (select_items cols rest) as [cs'|e]; cbn [bind]; [|discriminate].
    intros [= <-]. destruct (IH _ eq_refl) as (Hl & Hi).
    split; [cbn; now rewrite Hl|].
    intros x [<-|Hx]; [|now apply Hi].
    destruct (index_literal it); [exact (column_at_In _ _ _ E)|exact (find_column_In _ _ _ E)].
Qed.

Lemma hits_incl (pri num_cols names_lower : list string) :
  incl (hits pri num_cols names_lower) num_cols.
Proof.
  induction pri as [|p pri IH]; cbn [hits]; [intros c []|].
  destruct (index_of p names_lower) as [i|]; [|exact IH].
  destruct (nth_error num_cols i) as [c|] eqn:E; [|exact IH].
  intros x [<-|Hx]; [exact (nth_error_In _ _ E)|now apply IH].
Qed.

Lemma hits_length (pri num_cols names_lower : list string) :
  List.length (hits pri num_cols names_lower) <= List.length pri.
Proof.
  induction pri as [|p pri IH]; cbn [hits List.length]; [lia|].
  destruct (index_of p names_lower) as [i|]; [|lia].
  destruct (nth_error num_cols i); cbn [List.length]; lia.
Qed.

Lemma numeric_columns_incl (df : DataFrame) : incl (numeric_columns df) (columns df).
Proof.
  intros c Hc. apply in_map_iff in Hc as (col & <- & Hin).
  apply filter_In in Hin as (Hin & _). now apply in_map.
Qed.

Lemma firstn_incl {A : Type} (n : nat) (l : list A) : incl (firstn n l) l.
Proof.
  revert l. induction n as [|n IH]; intros [|a l] x; cbn; try contradiction.
  intros [<-|Hx]; [now left|right; now apply IH].
Qed.

(** The automatic choice: an error below [expected] numeric columns,
    [expected] numeric columns otherwise. *)
Lemma auto_select_spec (df : DataFrame) (expected : nat) :
  (List.length (numeric_columns df) < expected ->
   auto_select df expected = Raise ValueError) /\
  (expected <= List.length (numeric_columns df) ->
   exists cols, auto_select df expected = Ok cols /\
                List.length cols = expected /\ incl cols (numeric_columns df)).
Proof.
  unfold auto_select. split; intros H.
  - apply Nat.ltb_lt in H. now rewrite H.
  - destruct (Nat.ltb_spec (List.length (numeric_columns df)) expected); [lia|].
    destruct (Nat.eqb_spec (List.length (hits ["kpi_x"; "kpi_y"; "kpi_z"]
                (numeric_columns df) (map str_lower (numeric_columns df)))) expected)
      as [E1|_].
    { eexists. split; [reflexivity|]. split; [exact E1|apply hits_incl]. }
    destruct (Nat.eqb_spec (List.length (hits ["x"; "y"; "z"]
                (numeric_columns df) (map str_lower (numeric_columns df)))) expected)
      as [E2|_].
    { eexists. split; [reflexivity|]. split; [exact E2|apply hits_incl]. }
    eexists. split; [reflexivity|]. split; [|apply firstn_incl].
    rewrite length_firstn. lia.
Qed.

(** X24.  Whatever the specification, the columns [_parse_cols_spec]
    returns are [expected] many and each is a column of the table. *)
Theorem parse_cols_spec_selects_columns (spec : option string) (df : DataFrame)
  (expected : nat) (cols : list string) :
  _parse_cols_spec spec df expected = Ok cols ->
  List.length cols = expected /\ incl cols (columns df).
Proof.
  assert (Ha : auto_select df expected = Ok cols ->
               List.length cols = expected /\ incl cols (columns df)).
  { intros H. destruct (auto_select_spec df expected) as (Hlt & Hge).
    destruct (Nat.lt_ge_cases (List.length (numeric_columns df)) expected) as [Hl|Hl].
    - rewrite (Hlt Hl) in H. discriminate.
    - destruct (Hge Hl) as (cs & E & Hlen & Hin). rewrite E in H. injection H as <-.
      split; [exact Hlen|].
      intros c Hc. apply numeric_columns_incl. now apply Hin. }
  unfold _parse_cols_spec. destruct spec as [[|a s]|]; [exact Ha| |exact Ha].
  destruct (select_items _ _) as [cs|e] eqn:E; cbn [bind]; [|discriminate].
  destruct (Nat.eqb_spec (List.length cs) expected) as [Hl|_]; [|discriminate].
  intros [= <-]. split; [exact Hl|]. exact (proj2 (select_items_spec _ _ _ E)).
Qed.

Lemma parse_cols_spec_selects_columns_witness :
  _parse_cols_spec (Some "kpi_x, 1 ,-1") sample_frame 3 = Ok ["Kpi_X"; "Z"; "Kpi_X"] /\
  List.length ["Kpi_X"; "Z"; "Kpi_X"] = 3 /\
  incl ["Kpi_X"; "Z"; "Kpi_X"] (columns sample_frame).
Proof.
  assert (H : _parse_cols_spec (Some "kpi_x, 1 ,-1") sample_frame 3
              = Ok ["Kpi_X"; "Z"; "Kpi_X"]) by (vm_compute; reflexivity).
  split; [exact H|].
  exact (parse_cols_spec_selects_columns _ _ _ _ H).
Defined.

(** X25.  Without a specification (none, or the empty text)
    [_parse_cols_spec] raises [ValueError] when the table has fewer than
    [expected] numeric columns, and otherwise returns [expected] numeric
    columns of the table. *)
Theorem auto_selection_needs_numeric_columns (spec : option string)
  (df : DataFrame) (expected : nat) :
  spec = None \/ spec = Some "" ->
  (List.length (numeric_columns df) < expected ->
   _parse_cols_spec spec df expected = Raise ValueError) /\
  (expected <= List.length (numeric_columns df) ->
   exists cols, _parse_cols_spec spec df expected = Ok cols /\
                List.length cols = expected /\ incl cols (numeric_columns df)).
Proof.
  intros [-> | ->]; exact (auto_select_spec df expected).
Qed.

Lemma auto_selection_needs_numeric_columns_witness :
  _parse_cols_spec (Some "") sample_frame 8 = Raise ValueError.
Proof.
  apply (auto_selection_needs_numeric_columns (Some "") sample_frame 8).
  - right. reflexivity.
  - vm_compute. lia.
Defined.

(** X26.  For more than three columns, as for the eight parameters, the
    automatic choice is the first [expected] numeric columns: the
    preferred names, three at most, never apply. *)
Theorem auto_selection_beyond_three (df : DataFrame) (expected : nat) :
  3 < expected ->
  expected <= List.length (numeric_columns df) ->
  _parse_cols_spec None df expected = Ok (firstn expected (numeric_columns df)).
Proof.
  intros H3 Hn. cbn [_parse_cols_spec]. unfold auto_select.
  destruct (Nat.ltb_spec (List.length (numeric_columns df)) expected); [lia|].
  match goal with
  | |- context [hits ?p ?a ?b] =>
      pose proof (hits_length p a b) as L1; cbn [List.length] in L1;
      destruct (Nat.eqb_spec (List.length (hits p a b)) expected); [lia|]
  end.
  match goal with
  | |- context [hits ?p ?a ?b] =>
      pose proof (hits_length p a b) as L2; cbn [List.length] in L2;
      destruct (Nat.eqb_spec (List.length (hits p a b)) expected); [lia|]
  end.
  reflexivity.
Qed.

Lemma auto_selection_beyond_three_witness :
  _parse_cols_spec None wide_frame 8 =
  Ok ["p1"; "p2"; "p3"; "p4"; "p5"; "p6"; "p7"; "p8"].
Proof.
  refine (eq_trans (auto_selection_beyond_three wide_frame 8 _ _) _).
  - lia.
  - vm_compute. lia.
  - vm_compute. reflexivity.
Defined.

Lemma find_index (p : string) (l : list string) (c : string) :
  find (fun c => str_lower c =? p) l = Some c ->
  exists i, index_of p (map str_lower l) = Some i /\ nth_error l i = Some c /\
            str_lower c = p.
Proof.
  induction l as [|a l IH]; cbn [find map index_of]; [discriminate|].
  destruct (String.eqb_spec (str_lower a) p) as [E|_].
  - intros [= <-]. exists 0. auto.
  - intros H. destruct (IH H) as (i & -> & Hn & Hl). exists (S i). auto.
Qed.

(** X27.  For the three KPIs, when the table has numeric columns named
    [kpi_x], [kpi_y] and [kpi_z] up to case, the automatic choice is
    those three in that order, wherever they stand in the table. *)
Theorem auto_selection_prefers_kpi_names (df : DataFrame) (cx cy cz : string) :
  first_named "kpi_x" df = Some cx ->
  first_named "kpi_y" df = Some cy ->
  first_named "kpi_z" df = Some cz ->
  _parse_cols_spec None df 3 = Ok [cx; cy; cz].
Proof.
  unfold first_named. intros Hx Hy Hz.
  destruct (find_index _ _ _ Hx) as (i & Ei & Ni & Li).
  destruct (find_index _ _ _ Hy) as (j & Ej & Nj & Lj).
  destruct (find_index _ _ _ Hz) as (k & Ek & Nk & Lk).
  assert (Hlen : 3 <= List.length (numeric_columns df)).
  { assert (i < List.length (numeric_columns df)) by (apply nth_error_Some; congruence).
    assert (j < List.length (numeric_columns df)) by (apply nth_error_Some; congruence).
    assert (k < List.length (numeric_columns df)) by (apply nth_error_Some; congruence).
    assert (i <> j) by (intros ->; rewrite Ni in Nj; injection Nj as ->;
                        rewrite Li in Lj; discriminate).
    assert (i <> k) by (intros ->; rewrite Ni in Nk; injection Nk as ->;
                        rewrite Li in Lk; discriminate).
    assert (j <> k) by (intros ->; rewrite Nj in Nk; injection Nk as ->;
                        rewrite Lj in Lk; discriminate).
    lia. }
  cbn [_parse_cols_spec]. unfold auto_select.
  destruct (Nat.ltb_spec (List.length (numeric_columns df)) 3); [lia|].
  cbn [hits]. rewrite Ei, Ni, Ej, Nj, Ek, Nk. reflexivity.
Qed.

Lemma auto_selection_prefers_kpi_names_witness :
  _parse_cols_spec None sample_frame 3 = Ok ["Kpi_X"; "KPI_Y"; "kpi_z"].
Proof.
  apply (auto_selection_prefers_kpi_names sample_frame); vm_compute; reflexivity.
Defined.

End CsvFacts.
